(** * AWS KMS key manager plugin (pkg/server/plugin/keymanager/awskms/awskms.go)

    A shallow embedding of the plugin: the key-entry cache kept in
    [Plugin.entries], the alias codec, the mapping between SPIRE key types
    and KMS key/signing specs, key generation and rotation, signing, and
    the reconciliation pass run by [Configure].

    Modelling conventions.
    - Go strings are byte strings: [string] (a list of [ascii]).
    - [map[string]keyEntry] is a [gmap string keyEntry].
    - A Go function returning [(T, error)] returns an [outcome T]; a nil
      pointer dereference or a method call on a nil interface is [Panic].
    - Pointers that the code tests or dereferences are [option]s.
    - The KMS client is an interface of the package; it is a type class
      [kmsClient] over an arbitrary client state, so every theorem holds for
      every implementation, the real service and test fakes alike.
    - The logger has no effect on the plugin state and is left out; the
      mutex is not modelled (calls are taken one at a time). *)

From Stdlib Require Import ZArith Ascii String List Lia.
From stdpp Require Import base option gmap strings list fin_maps.

Open Scope string_scope.

(* ===================================================================== *)
(** ** Vocabulary of the key manager interface and of the KMS types      *)
(* ===================================================================== *)

(** [keymanager.KeyType]: a protobuf enum, an int32 in Go.  Values that are
    not declared members are [KeyType_UNRECOGNIZED n]; the code only ever
    compares against the declared members. *)
Inductive KeyType :=
| KeyType_UNSPECIFIED_KEY_TYPE
| KeyType_EC_P256
| KeyType_EC_P384
| KeyType_RSA_1024
| KeyType_RSA_2048
| KeyType_RSA_4096
| KeyType_UNRECOGNIZED (n : Z).

(** [keymanager.HashAlgorithm]; members the plugin does not name are
    collected under [HashAlgorithm_OTHER]. *)
Inductive HashAlgorithm :=
| HashAlgorithm_UNSPECIFIED_HASH_ALGORITHM
| HashAlgorithm_SHA256
| HashAlgorithm_SHA384
| HashAlgorithm_SHA512
| HashAlgorithm_OTHER (n : Z).

#[global] Instance KeyType_eq_dec : EqDecision KeyType.
Proof. solve_decision. Defined.
#[global] Instance HashAlgorithm_eq_dec : EqDecision HashAlgorithm.
Proof. solve_decision. Defined.

(** [types.CustomerMasterKeySpec] and [types.SigningAlgorithmSpec] are string
    types of the AWS SDK. *)
Abbreviation CustomerMasterKeySpec := string (only parsing).
Abbreviation SigningAlgorithmSpec := string (only parsing).

Definition CustomerMasterKeySpecRsa2048 : CustomerMasterKeySpec := "RSA_2048".
Definition CustomerMasterKeySpecRsa4096 : CustomerMasterKeySpec := "RSA_4096".
Definition CustomerMasterKeySpecEccNistP256 : CustomerMasterKeySpec := "ECC_NIST_P256".
Definition CustomerMasterKeySpecEccNistP384 : CustomerMasterKeySpec := "ECC_NIST_P384".

Definition SigningAlgorithmSpecRsassaPssSha256 : SigningAlgorithmSpec := "RSASSA_PSS_SHA_256".
Definition SigningAlgorithmSpecRsassaPssSha384 : SigningAlgorithmSpec := "RSASSA_PSS_SHA_384".
Definition SigningAlgorithmSpecRsassaPssSha512 : SigningAlgorithmSpec := "RSASSA_PSS_SHA_512".
Definition SigningAlgorithmSpecRsassaPkcs1V15Sha256 : SigningAlgorithmSpec := "RSASSA_PKCS1_V1_5_SHA_256".
Definition SigningAlgorithmSpecRsassaPkcs1V15Sha384 : SigningAlgorithmSpec := "RSASSA_PKCS1_V1_5_SHA_384".
Definition SigningAlgorithmSpecRsassaPkcs1V15Sha512 : SigningAlgorithmSpec := "RSASSA_PKCS1_V1_5_SHA_512".
Definition SigningAlgorithmSpecEcdsaSha256 : SigningAlgorithmSpec := "ECDSA_SHA_256".
Definition SigningAlgorithmSpecEcdsaSha384 : SigningAlgorithmSpec := "ECDSA_SHA_384".

(** [keymanager.PSSOptions] and the [SignerOpts] oneof of a
    [SignDataRequest].  [signingAlgorithmForKMS] takes an [interface{}], so a
    value of another dynamic type (or the nil interface) is possible too. *)
Record PSSOptions := { pss_HashAlgorithm : HashAlgorithm; pss_SaltLength : Z }.

Inductive SignerOpts :=
| SignDataRequest_HashAlgorithm (h : HashAlgorithm)
| SignDataRequest_PssOptions (o : option PSSOptions)
| SignerOpts_other.

(** Errors, one constructor per error site; the payload is what the
    message is formatted from. *)
Inductive error :=
| ErrKeyIdRequired                       (* "key id is required" *)
| ErrKeyTypeRequired                     (* "key type is required" *)
| ErrSignerOptsRequired                  (* "signer opts is required" *)
| ErrNoSuchKey (keyId : string)          (* "no such key %q" *)
| ErrCreateClient (e : string)           (* "failed to create KMS client: %v" *)
| ErrCreateAlias (e : string)            (* "failed to create alias: %v" *)
| ErrUpdateAlias (e : string)            (* "failed to update alias: %v" *)
| ErrSign (e : string)                   (* "failed to sign: %v" *)
| ErrCreateKey (e : string)              (* "failed to create key: %v" *)
| ErrGetPublicKey (e : string)           (* "failed to get public key: %v" *)
| ErrDescribeKey (e : string)            (* "failed to describe key: %v" *)
| ErrFetchKeys (e : string)              (* "failed to fetch keys: %v" *)
| ErrProcessKey (e : error)              (* "failed to process KMS key: %v" *)
| ErrSpireKeyIDRequired                  (* "spireKeyID is required" *)
| ErrKMSKeyIDRequired                    (* "KMSKeyID is required" *)
| ErrAliasRequired                       (* "Alias is required" *)
| ErrPublicKeyRequired                   (* "PublicKey is required" *)
| ErrPublicKeyIdRequired                 (* "PublicKey.Id is required" *)
| ErrPublicKeyTypeRequired               (* "PublicKey.Type is required" *)
| ErrPkixDataRequired                    (* "PublicKey.PkixData is required" *)
| ErrAliasWithoutPrefix (prefix : string)(* "alias does not contain the prefix %q" *)
| ErrDecodeConfig (e : string)           (* "unable to decode configuration: %v" *)
| ErrMissingRegion                       (* "configuration is missing a region" *)
| ErrPssOptionsRequired                  (* "PSS options are required" *)
| ErrUnsupportedSignerOpts               (* "unsupported signer opts type %T" *)
| ErrHashAlgorithmRequired               (* "hash algorithm is required" *)
| ErrUnsupportedCombination (kt : KeyType) (h : HashAlgorithm)
                                         (* "unsupported combination of keytype: %v and hashing algorithm: %v" *)
| ErrUnsupportedKeySpec (s : string)     (* "unsupported key spec: %v" *)
| ErrUnsupportedKeyType1024              (* "unsupported key type: KeyType_RSA_1024" *)
| ErrUnknownKeyType.                     (* "unknown key type" *)

(** The result of a call: a value, an error, or a run-time panic. *)
Inductive outcome (A : Type) :=
| Ok (a : A)
| Err (e : error)
| Panic.
Arguments Ok {A} a.
Arguments Err {A} e.
Arguments Panic {A}.

Definition is_Err {A} (o : outcome A) : Prop := ∃ e, o = Err e.

(* ===================================================================== *)
(** ** Algorithm mapper                                                  *)
(* ===================================================================== *)

Definition keyTypeFromKeySpec (keySpec : CustomerMasterKeySpec) : outcome KeyType :=
  if String.eqb keySpec CustomerMasterKeySpecRsa2048 then Ok KeyType_RSA_2048
  else if String.eqb keySpec CustomerMasterKeySpecRsa4096 then Ok KeyType_RSA_4096
  else if String.eqb keySpec CustomerMasterKeySpecEccNistP256 then Ok KeyType_EC_P256
  else if String.eqb keySpec CustomerMasterKeySpecEccNistP384 then Ok KeyType_EC_P384
  else Err (ErrUnsupportedKeySpec keySpec).

Definition keySpecFromKeyType (keyType : KeyType) : outcome CustomerMasterKeySpec :=
  match keyType with
  | KeyType_RSA_1024 => Err ErrUnsupportedKeyType1024
  | KeyType_RSA_2048 => Ok CustomerMasterKeySpecRsa2048
  | KeyType_RSA_4096 => Ok CustomerMasterKeySpecRsa4096
  | KeyType_EC_P256 => Ok CustomerMasterKeySpecEccNistP256
  | KeyType_EC_P384 => Ok CustomerMasterKeySpecEccNistP384
  | _ => Err ErrUnknownKeyType
  end.

Definition signingAlgorithmForKMS (keyType : KeyType) (signerOpts : option SignerOpts)
  : outcome SigningAlgorithmSpec :=
  (* the type switch over signerOpts *)
  let decoded : outcome (HashAlgorithm * bool) :=
    match signerOpts with
    | Some (SignDataRequest_HashAlgorithm h) => Ok (h, false)
    | Some (SignDataRequest_PssOptions None) => Err ErrPssOptionsRequired
    | Some (SignDataRequest_PssOptions (Some o)) => Ok (pss_HashAlgorithm o, true)
    | Some SignerOpts_other | None => Err ErrUnsupportedSignerOpts
    end in
  match decoded with
  | Err e => Err e
  | Panic => Panic
  | Ok (hashAlgo, isPSS) =>
    let isRSA := bool_decide (keyType = KeyType_RSA_2048)
                 || bool_decide (keyType = KeyType_RSA_4096) in
    if bool_decide (hashAlgo = HashAlgorithm_UNSPECIFIED_HASH_ALGORITHM)
    then Err ErrHashAlgorithmRequired
    else if bool_decide (keyType = KeyType_EC_P256) && bool_decide (hashAlgo = HashAlgorithm_SHA256)
    then Ok SigningAlgorithmSpecEcdsaSha256
    else if bool_decide (keyType = KeyType_EC_P384) && bool_decide (hashAlgo = HashAlgorithm_SHA384)
    then Ok SigningAlgorithmSpecEcdsaSha384
    else if isRSA && negb isPSS && bool_decide (hashAlgo = HashAlgorithm_SHA256)
    then Ok SigningAlgorithmSpecRsassaPkcs1V15Sha256
    else if isRSA && negb isPSS && bool_decide (hashAlgo = HashAlgorithm_SHA384)
    then Ok SigningAlgorithmSpecRsassaPkcs1V15Sha384
    else if isRSA && negb isPSS && bool_decide (hashAlgo = HashAlgorithm_SHA512)
    then Ok SigningAlgorithmSpecRsassaPkcs1V15Sha512
    else if isRSA && isPSS && bool_decide (hashAlgo = HashAlgorithm_SHA256)
    then Ok SigningAlgorithmSpecRsassaPssSha256
    else if isRSA && isPSS && bool_decide (hashAlgo = HashAlgorithm_SHA384)
    then Ok SigningAlgorithmSpecRsassaPssSha384
    else if isRSA && isPSS && bool_decide (hashAlgo = HashAlgorithm_SHA512)
    then Ok SigningAlgorithmSpecRsassaPssSha512
    else Err (ErrUnsupportedCombination keyType hashAlgo)
  end.

(* ===================================================================== *)
(** ** The parts of Go's [strings] and [unicode/utf8] the codec uses      *)
(* ===================================================================== *)

(** [s[n:]] and [s[:n]] for [n <= len(s)]. *)
Fixpoint string_drop (n : nat) (s : string) : string :=
  match n, s with
  | 0, _ => s
  | S n', String _ s' => string_drop n' s'
  | S _, EmptyString => EmptyString
  end.

Fixpoint string_take (n : nat) (s : string) : string :=
  match n, s with
  | 0, _ => EmptyString
  | S n', String c s' => String c (string_take n' s')
  | S _, EmptyString => EmptyString
  end.

(** [strings.Index]: the offset of the leftmost instance of [substr] in [s];
    [None] stands for Go's [-1]. *)
Fixpoint Index (s substr : string) : option nat :=
  if String.prefix substr s then Some 0
  else match s with
       | EmptyString => None
       | String _ s' => S <$> Index s' substr
       end.

(** The width that [utf8.DecodeRuneInString] reports for the first rune of
    [s]: the table [first] with its accept ranges; an invalid or truncated
    sequence has width 1. *)
Definition utf8_first (s0 : ascii) : option (nat * N * N) :=
  let b := N_of_ascii s0 in
  if (0xC2 <=? b)%N && (b <=? 0xDF)%N then Some (2, 0x80%N, 0xBF%N)
  else if (b =? 0xE0)%N then Some (3, 0xA0%N, 0xBF%N)
  else if (0xE1 <=? b)%N && (b <=? 0xEC)%N then Some (3, 0x80%N, 0xBF%N)
  else if (b =? 0xED)%N then Some (3, 0x80%N, 0x9F%N)
  else if (0xEE <=? b)%N && (b <=? 0xEF)%N then Some (3, 0x80%N, 0xBF%N)
  else if (b =? 0xF0)%N then Some (4, 0x90%N, 0xBF%N)
  else if (0xF1 <=? b)%N && (b <=? 0xF3)%N then Some (4, 0x80%N, 0xBF%N)
  else if (b =? 0xF4)%N then Some (4, 0x80%N, 0x8F%N)
  else None.

Definition byte_between (lo hi : N) (c : ascii) : bool :=
  (lo <=? N_of_ascii c)%N && (N_of_ascii c <=? hi)%N.

Definition DecodeRuneInString_size (s : string) : nat :=
  match s with
  | EmptyString => 0
  | String s0 rest =>
    match utf8_first s0 with
    | None => 1
    | Some (sz, lo, hi) =>
      if (String.length s <? sz)%nat then 1
      else match rest with
           | String s1 rest1 =>
             if negb (byte_between lo hi s1) then 1
             else if (sz <=? 2)%nat then 2
             else match rest1 with
                  | String s2 rest2 =>
                    if negb (byte_between 0x80%N 0xBF%N s2) then 1
                    else if (sz <=? 3)%nat then 3
                    else match rest2 with
                         | String s3 _ =>
                           if negb (byte_between 0x80%N 0xBF%N s3) then 1 else 4
                         | EmptyString => 1
                         end
                  | EmptyString => 1
                  end
           | EmptyString => 1
           end
    end
  end.

(** [utf8.RuneCountInString]: the number of decoding steps over [s]. *)
Fixpoint RuneCount_from (fuel : nat) (s : string) : nat :=
  match fuel with
  | 0 => 0
  | S f =>
    match s with
    | EmptyString => 0
    | _ => S (RuneCount_from f (string_drop (DecodeRuneInString_size s) s))
    end
  end.

Definition RuneCountInString (s : string) : nat := RuneCount_from (String.length s) s.

(** [strings.explode(s, -1)]: [n-1] decoded runes, then the rest. *)
Fixpoint explode_loop (k : nat) (s : string) : list string :=
  match k with
  | 0 => [s]
  | S k' =>
    let size := DecodeRuneInString_size s in
    string_take size s :: explode_loop k' (string_drop size s)
  end.

Definition explode (s : string) : list string :=
  match RuneCountInString s with
  | 0 => []
  | S k => explode_loop k s
  end.

(** [strings.Count]: the number of non-overlapping instances of [substr]. *)
Fixpoint Count_from (fuel : nat) (s substr : string) : nat :=
  match fuel with
  | 0 => 0
  | S f =>
    match Index s substr with
    | None => 0
    | Some i => S (Count_from f (string_drop (i + String.length substr) s) substr)
    end
  end.

Definition Count (s substr : string) : nat :=
  if String.eqb substr "" then RuneCountInString s + 1
  else Count_from (S (String.length s)) s substr.

(** [strings.genSplit(s, sep, sepSave, -1)]: with [n = Count(s, sep) + 1]
    the loop body runs while [i < n-1] and stops early when [sep] is no
    longer found. *)
Fixpoint genSplit_loop (k : nat) (s sep : string) (sepSave : nat) : list string :=
  match k with
  | 0 => [s]
  | S k' =>
    match Index s sep with
    | None => [s]
    | Some m =>
      string_take (m + sepSave) s
        :: genSplit_loop k' (string_drop (m + String.length sep) s) sep sepSave
    end
  end.

Definition genSplit (s sep : string) (sepSave : nat) : list string :=
  if String.eqb sep "" then explode s
  else genSplit_loop (Count s sep) s sep sepSave.

Definition SplitAfter (s sep : string) : list string :=
  genSplit s sep (String.length sep).

(* ===================================================================== *)
(** ** Data model                                                        *)
(* ===================================================================== *)

Definition pluginName := "awskms".
Definition aliasPrefix := "alias/".
Definition defaultKeyPrefix := "SPIRE_SERVER_KEY/".

Abbreviation bytes := (list Byte.byte) (only parsing).

(** [keymanager.PublicKey]; a nil and an empty [PkixData] slice are both
    the empty list. *)
Record keymanager_PublicKey := {
  Id : string;
  Type_ : KeyType;
  PkixData : bytes;
}.

Record keyEntry := {
  KMSKeyID : string;
  Alias : string;
  PublicKey : option keymanager_PublicKey;
}.

Record Config := {
  AccessKeyID : string;
  SecretAccessKey : string;
  Region : string;
  KeyPrefix : string;
}.

(* ===================================================================== *)
(** ** The KMS client interface                                          *)
(* ===================================================================== *)

(** The fields of the SDK's request and response structs that the plugin
    sets or reads.  A [*string] is an [option string]. *)
Record KeyMetadata := {
  km_KeyId : option string;
  km_Enabled : bool;
  km_CustomerMasterKeySpec : CustomerMasterKeySpec;
}.

Record CreateKeyInput := {
  cki_Description : option string;
  cki_KeyUsage : string;
  cki_CustomerMasterKeySpec : CustomerMasterKeySpec;
}.
Record CreateKeyOutput := { cko_KeyMetadata : option KeyMetadata }.

Record GetPublicKeyInput := { gpi_KeyId : option string }.
Record GetPublicKeyOutput := { gpo_KeyId : option string; gpo_PublicKey : bytes }.

Record DescribeKeyInput := { dki_KeyId : option string }.
Record DescribeKeyOutput := { dko_KeyMetadata : option KeyMetadata }.

Record ListAliasesInput := { lai_Marker : option string }.
Record AliasListEntry := { AliasName : option string; TargetKeyId : option string }.
Record ListAliasesOutput := { Aliases : list AliasListEntry; NextMarker : option string }.

Record CreateAliasInput := { cai_AliasName : option string; cai_TargetKeyId : option string }.
Record UpdateAliasInput := { uai_AliasName : option string; uai_TargetKeyId : option string }.

Record ScheduleKeyDeletionInput := {
  skd_KeyId : option string;
  skd_PendingWindowInDays : option Z;
}.

Record SignInput := {
  si_KeyId : option string;
  si_Message : bytes;
  si_MessageType : string;
  si_SigningAlgorithm : SigningAlgorithmSpec;
}.
Record SignOutput := { so_Signature : bytes }.

Definition KeyUsageTypeSignVerify := "SIGN_VERIFY".
Definition MessageTypeDigest := "DIGEST".

(** The calls the plugin can issue, as recorded in the call log. *)
Inductive kmsCall :=
| CallCreateKey (i : CreateKeyInput)
| CallGetPublicKey (i : GetPublicKeyInput)
| CallDescribeKey (i : DescribeKeyInput)
| CallListAliases (i : ListAliasesInput)
| CallCreateAlias (i : CreateAliasInput)
| CallUpdateAlias (i : UpdateAliasInput)
| CallScheduleKeyDeletion (i : ScheduleKeyDeletionInput)
| CallSign (i : SignInput).

(** The [kmsClient] interface.  A client has a state of its own; a call
    answers with an output or with an error (its message) and moves the
    client to a new state.  Nothing is assumed about the answers. *)
Class kmsClient (K : Type) := {
  CreateKey : K → CreateKeyInput → (CreateKeyOutput + string) * K;
  GetPublicKey_ : K → GetPublicKeyInput → (GetPublicKeyOutput + string) * K;
  DescribeKey : K → DescribeKeyInput → (DescribeKeyOutput + string) * K;
  ListAliases : K → ListAliasesInput → (ListAliasesOutput + string) * K;
  CreateAlias : K → CreateAliasInput → (unit + string) * K;
  UpdateAlias : K → UpdateAliasInput → (unit + string) * K;
  ScheduleKeyDeletion : K → ScheduleKeyDeletionInput → (unit + string) * K;
  Sign : K → SignInput → (SignOutput + string) * K;
}.

(* ===================================================================== *)
(** ** The plugin and its operations                                     *)
(* ===================================================================== *)

Section State.
Context {K : Type} `{!kmsClient K}.

(** [Plugin]: [kmsClient] is nil until [Configure] has run;
    [hooks_newClient] returns a client and an error as the Go hook does. *)
Record Plugin := {
  entries : gmap string keyEntry;
  client : option K;
  keyPrefix : string;
  hooks_newClient : Config → option K * option string;
}.

(** What runs around the plugin: the log of the calls issued to the KMS
    client, and the goroutines started and not yet run (each is the closure
    of [GenerateKey] that schedules the deletion of [oldEntry]'s key). *)
Record World := {
  plugin : Plugin;
  calls : list kmsCall;
  goroutines : list keyEntry;
}.

Definition M (A : Type) : Type := World → outcome A * World.

Definition ret {A} (a : A) : M A := λ w, (Ok a, w).
Definition throw {A} (e : error) : M A := λ w, (Err e, w).
Definition panic {A} : M A := λ w, (Panic, w).

Definition bind {A B} (m : M A) (f : A → M B) : M B :=
  λ w, match m w with
       | (Ok a, w') => f a w'
       | (Err e, w') => (Err e, w')
       | (Panic, w') => (Panic, w')
       end.

Definition with_plugin (f : Plugin → Plugin) (w : World) : World :=
  {| plugin := f (plugin w); calls := calls w; goroutines := goroutines w |}.

Definition set_entries (m : gmap string keyEntry) (p : Plugin) : Plugin :=
  {| entries := m; client := client p; keyPrefix := keyPrefix p;
     hooks_newClient := hooks_newClient p |}.

Definition set_client (c : option K) (p : Plugin) : Plugin :=
  {| entries := entries p; client := c; keyPrefix := keyPrefix p;
     hooks_newClient := hooks_newClient p |}.

Definition set_keyPrefix (s : string) (p : Plugin) : Plugin :=
  {| entries := entries p; client := client p; keyPrefix := s;
     hooks_newClient := hooks_newClient p |}.

(** A method call [p.kmsClient.op(ctx, input)]: it panics on a nil client,
    and otherwise is logged and answered by the client. *)
Definition remote {I O} (op : K → I → (O + string) * K) (tag : I → kmsCall)
    (input : I) : M (O + string) :=
  λ w, match client (plugin w) with
       | None => (Panic, w)
       | Some k =>
         let '(r, k') := op k input in
         (Ok r, {| plugin := set_client (Some k') (plugin w);
                   calls := calls w ++ [tag input];
                   goroutines := goroutines w |})
       end.

(** [go func() { ... }()]: the closure is started, not run. *)
Definition spawn (oldEntry : keyEntry) : M unit :=
  λ w, (Ok tt, {| plugin := plugin w; calls := calls w;
                  goroutines := goroutines w ++ [oldEntry] |}).

End State.

Declare Scope plugin_scope.
Delimit Scope plugin_scope with plugin.
Notation "x <~ m ;; k" := (bind m (λ x, k))
  (at level 100, m at next level, right associativity) : plugin_scope.
Notation "m ;;; k" := (bind m (λ _, k))
  (at level 100, right associativity) : plugin_scope.

Arguments Plugin K : clear implicits.
Arguments World K : clear implicits.
Arguments M K A : clear implicits.

(** The request and response messages of the key manager service. *)
Record ConfigureRequest := { Configuration : string }.
Record GenerateKeyRequest := { gkr_KeyId : string; gkr_KeyType : KeyType }.
Record GenerateKeyResponse := { gkr_PublicKey : option keymanager_PublicKey }.
Record SignDataRequest := {
  sdr_KeyId : string;
  sdr_Data : bytes;
  sdr_SignerOpts : option SignerOpts;
}.
Record SignDataResponse := { sdr_Signature : bytes }.
Record GetPublicKeyRequest := { gpr_KeyId : string }.
Record GetPublicKeyResponse := { gpr_PublicKey : option keymanager_PublicKey }.
Record GetPublicKeysResponse := { gpr_PublicKeys : list (option keymanager_PublicKey) }.

Section Operations.
Context {K : Type} `{!kmsClient K}.

(** [hcl.Decode] into a [Config]: the configuration parser is a library. *)
Variable hcl_Decode : string → Config + string.

Local Open Scope plugin_scope.

(** [newPlugin]: a plugin with an empty cache, no client and no prefix. *)
Definition newPlugin (newClient : Config → option K * option string) : Plugin K :=
  {| entries := ∅; client := None; keyPrefix := ""; hooks_newClient := newClient |}.

Definition newWorld (newClient : Config → option K * option string) : World K :=
  {| plugin := newPlugin newClient; calls := []; goroutines := [] |}.

(** *** Alias codec *)

Definition aliasFromSpireKeyID (p : Plugin K) (spireKeyID : string) : string :=
  aliasPrefix +:+ keyPrefix p +:+ spireKeyID.

Definition descriptionFromSpireKeyID (p : Plugin K) (spireKeyID : string) : string :=
  keyPrefix p +:+ spireKeyID.

Definition spireKeyIDFromAlias (p : Plugin K) (alias : string) : outcome string :=
  let tokens := SplitAfter alias (keyPrefix p) in
  if negb (length tokens =? 2)%nat then Err (ErrAliasWithoutPrefix (keyPrefix p))
  else match tokens !! 1%nat with
       | Some t => Ok t
       | None => Panic
       end.

(** *** The cache *)

Definition setEntry (spireKeyID : string) (entry : keyEntry) : M K unit :=
  if String.eqb spireKeyID "" then throw ErrSpireKeyIDRequired
  else if String.eqb (KMSKeyID entry) "" then throw ErrKMSKeyIDRequired
  else if String.eqb (Alias entry) "" then throw ErrAliasRequired
  else match PublicKey entry with
       | None => throw ErrPublicKeyRequired
       | Some pk =>
         if String.eqb (Id pk) "" then throw ErrPublicKeyIdRequired
         else if bool_decide (Type_ pk = KeyType_UNSPECIFIED_KEY_TYPE)
         then throw ErrPublicKeyTypeRequired
         else if (length (PkixData pk) =? 0)%nat then throw ErrPkixDataRequired
         else λ w, (Ok tt,
                    with_plugin (λ p, set_entries (<[spireKeyID := entry]> (entries p)) p) w)
       end.

Definition entry (spireKeyID : string) : M K (option keyEntry) :=
  λ w, (Ok (entries (plugin w) !! spireKeyID), w).

Definition clonePublicKey (publicKey : option keymanager_PublicKey)
  : option keymanager_PublicKey := publicKey.

(** *** Key creation *)

Definition createKey (spireKeyID : string) (keyType : KeyType) : M K keyEntry :=
  λ w,
  let description := descriptionFromSpireKeyID (plugin w) spireKeyID in
  match keySpecFromKeyType keyType with
  | Err e => (Err e, w)
  | Panic => (Panic, w)
  | Ok keySpec =>
    (key <~ remote CreateKey CallCreateKey
              {| cki_Description := Some description;
                 cki_KeyUsage := KeyUsageTypeSignVerify;
                 cki_CustomerMasterKeySpec := keySpec |};;
     match key with
     | inr e => throw (ErrCreateKey e)
     | inl key =>
       match cko_KeyMetadata key with
       | None => panic
       | Some md =>
         pub <~ remote GetPublicKey_ CallGetPublicKey {| gpi_KeyId := km_KeyId md |};;
         match pub with
         | inr e => throw (ErrGetPublicKey e)
         | inl pub =>
           match gpo_KeyId pub with
           | None => panic
           | Some kmsKeyId =>
             λ w', (Ok {| KMSKeyID := kmsKeyId;
                          Alias := aliasFromSpireKeyID (plugin w') spireKeyID;
                          PublicKey := Some {| Id := spireKeyID;
                                               Type_ := keyType;
                                               PkixData := gpo_PublicKey pub |} |}, w')
           end
         end
       end
     end) w
  end.

(** *** Reconciliation *)

Definition buildKeyEntry (alias awsKeyID : string) : M K (option keyEntry) :=
  describeResp <~ remote DescribeKey CallDescribeKey {| dki_KeyId := Some alias |};;
  match describeResp with
  | inr e => throw (ErrDescribeKey e)
  | inl describeResp =>
    match dko_KeyMetadata describeResp with
    | None => panic
    | Some md =>
      if negb (km_Enabled md) then ret None
      else λ w,
        match spireKeyIDFromAlias (plugin w) alias with
        | Panic => (Panic, w)
        | Err _ => (Ok None, w)
        | Ok spireKeyID =>
          match keyTypeFromKeySpec (km_CustomerMasterKeySpec md) with
          | Panic => (Panic, w)
          | Err _ => (Ok None, w)
          | Ok keyType =>
            (getPublicKeyResp <~ remote GetPublicKey_ CallGetPublicKey
                                   {| gpi_KeyId := Some alias |};;
             match getPublicKeyResp with
             | inr e => throw (ErrGetPublicKey e)
             | inl getPublicKeyResp =>
               ret (Some {| KMSKeyID := awsKeyID;
                            Alias := alias;
                            PublicKey := Some {| Id := spireKeyID;
                                                 Type_ := keyType;
                                                 PkixData := gpo_PublicKey getPublicKeyResp |} |})
             end) w
          end
        end
    end
  end.

(** The [switch] on the result of [buildKeyEntry] for one listed alias. *)
Definition processAlias (alias : AliasListEntry) : M K unit :=
  match AliasName alias, TargetKeyId alias with
  | Some aliasName, Some targetKeyId =>
    λ w, match buildKeyEntry aliasName targetKeyId w with
         | (Err e, w') => (Err (ErrProcessKey e), w')
         | (Panic, w') => (Panic, w')
         | (Ok None, w') => (Ok tt, w')
         | (Ok (Some e), w') =>
           match PublicKey e with
           | None => (Panic, w')
           | Some pk => setEntry (Id pk) e w'
           end
         end
  | _, _ => ret tt
  end.

(** [for _, alias := range aliasesResp.Aliases]. *)
Fixpoint rangeAliases (aliases : list AliasListEntry) : M K unit :=
  match aliases with
  | [] => ret tt
  | alias :: rest => processAlias alias ;;; rangeAliases rest
  end.

Definition fetchAliasesPage (marker : option string) : M K (option string) :=
  aliasesResp <~ remote ListAliases CallListAliases {| lai_Marker := marker |};;
  match aliasesResp with
  | inr e => throw (ErrFetchKeys e)
  | inl aliasesResp =>
    rangeAliases (Aliases aliasesResp) ;;;
    ret (NextMarker aliasesResp)
  end.

(** The [for] loop of [Configure]; the listing has no bound on its number of
    pages, so the loop takes fuel, one unit a page, and [None] is a loop
    that has not ended within it. *)
Fixpoint fetchAllPages (fuel : nat) (nextMarker : option string) (w : World K)
  : option (outcome unit * World K) :=
  match fuel with
  | 0 => None
  | S fuel' =>
    match fetchAliasesPage nextMarker w with
    | (Err e, w') => Some (Err e, w')
    | (Panic, w') => Some (Panic, w')
    | (Ok None, w') => Some (Ok tt, w')
    | (Ok (Some m), w') => fetchAllPages fuel' (Some m) w'
    end
  end.

Definition validateConfig (c : string) : outcome Config :=
  match hcl_Decode c with
  | inr e => Err (ErrDecodeConfig e)
  | inl config =>
    if String.eqb (Region config) "" then Err ErrMissingRegion
    else if String.eqb (KeyPrefix config) ""
    then Ok {| AccessKeyID := AccessKeyID config;
               SecretAccessKey := SecretAccessKey config;
               Region := Region config;
               KeyPrefix := defaultKeyPrefix |}
    else Ok config
  end.

Definition Configure (fuel : nat) (req : ConfigureRequest) (w : World K)
  : option (outcome unit * World K) :=
  match validateConfig (Configuration req) with
  | Err e => Some (Err e, w)
  | Panic => Some (Panic, w)
  | Ok config =>
    let w1 := with_plugin (set_keyPrefix (KeyPrefix config)) w in
    let '(c, err) := hooks_newClient (plugin w1) config in
    let w2 := with_plugin (set_client c) w1 in
    match err with
    | Some e => Some (Err (ErrCreateClient e), w2)
    | None => fetchAllPages fuel None w2
    end
  end.

(** *** The key manager operations *)

Definition GenerateKey (req : GenerateKeyRequest) : M K GenerateKeyResponse :=
  if String.eqb (gkr_KeyId req) "" then throw ErrKeyIdRequired
  else if bool_decide (gkr_KeyType req = KeyType_UNSPECIFIED_KEY_TYPE)
  then throw ErrKeyTypeRequired
  else
    let spireKeyID := gkr_KeyId req in
    newEntry <~ createKey spireKeyID (gkr_KeyType req);;
    old <~ entry spireKeyID;;
    match old with
    | None =>
      r <~ remote CreateAlias CallCreateAlias
             {| cai_AliasName := Some (Alias newEntry);
                cai_TargetKeyId := Some (KMSKeyID newEntry) |};;
      match r with
      | inr e => throw (ErrCreateAlias e)
      | inl _ => ret tt
      end
    | Some oldEntry =>
      r <~ remote UpdateAlias CallUpdateAlias
             {| uai_AliasName := Some (Alias newEntry);
                uai_TargetKeyId := Some (KMSKeyID newEntry) |};;
      match r with
      | inr e => throw (ErrUpdateAlias e)
      | inl _ => spawn oldEntry
      end
    end;;;
    setEntry spireKeyID newEntry;;;
    ret {| gkr_PublicKey := clonePublicKey (PublicKey newEntry) |}.

(** The body of the goroutine started on rotation: the failure of the call
    is logged and dropped. *)
Definition scheduleDelete (oldEntry : keyEntry) : M K unit :=
  remote ScheduleKeyDeletion CallScheduleKeyDeletion
    {| skd_KeyId := Some (KMSKeyID oldEntry);
       skd_PendingWindowInDays := Some 7%Z |};;;
  ret tt.

(** The scheduler picks the oldest goroutine and runs it. *)
Definition runGoroutine (w : World K) : outcome unit * World K :=
  match goroutines w with
  | [] => (Ok tt, w)
  | g :: rest =>
    scheduleDelete g {| plugin := plugin w; calls := calls w; goroutines := rest |}
  end.

Definition SignData (req : SignDataRequest) : M K SignDataResponse :=
  if String.eqb (sdr_KeyId req) "" then throw ErrKeyIdRequired
  else match sdr_SignerOpts req with
  | None => throw ErrSignerOptsRequired
  | Some _ =>
    found <~ entry (sdr_KeyId req);;
    match found with
    | None => throw (ErrNoSuchKey (sdr_KeyId req))
    | Some keyEntry =>
      match PublicKey keyEntry with
      | None => panic
      | Some pk =>
        match signingAlgorithmForKMS (Type_ pk) (sdr_SignerOpts req) with
        | Err e => throw e
        | Panic => panic
        | Ok signingAlgo =>
          signResp <~ remote Sign CallSign
                        {| si_KeyId := Some (Alias keyEntry);
                           si_Message := sdr_Data req;
                           si_MessageType := MessageTypeDigest;
                           si_SigningAlgorithm := signingAlgo |};;
          match signResp with
          | inr e => throw (ErrSign e)
          | inl signResp => ret {| sdr_Signature := so_Signature signResp |}
          end
        end
      end
    end
  end.

Definition GetPublicKey (req : GetPublicKeyRequest) : M K GetPublicKeyResponse :=
  if String.eqb (gpr_KeyId req) "" then throw ErrKeyIdRequired
  else
    found <~ entry (gpr_KeyId req);;
    match found with
    | None => throw (ErrNoSuchKey (gpr_KeyId req))
    | Some e => ret {| gpr_PublicKey := clonePublicKey (PublicKey e) |}
    end.

(** The order of a Go map iteration is not specified; this is one order. *)
Definition GetPublicKeys : M K GetPublicKeysResponse :=
  λ w, (Ok {| gpr_PublicKeys :=
                (λ kv, clonePublicKey (PublicKey kv.2)) <$> map_to_list (entries (plugin w)) |},
        w).

End Operations.

(* ===================================================================== *)
(** ** Vocabulary of the statements                                      *)
(* ===================================================================== *)

Definition supportedKeyTypes : list KeyType :=
  [KeyType_RSA_2048; KeyType_RSA_4096; KeyType_EC_P256; KeyType_EC_P384].

Definition supportedKeySpecs : list CustomerMasterKeySpec :=
  [CustomerMasterKeySpecRsa2048; CustomerMasterKeySpecRsa4096;
   CustomerMasterKeySpecEccNistP256; CustomerMasterKeySpecEccNistP384].

(** The signer options that carry hash [h] with the padding flag [isPSS]. *)
Definition signerOptsOf (h : HashAlgorithm) (isPSS : bool) (saltLength : Z)
  : option SignerOpts :=
  Some (if isPSS
        then SignDataRequest_PssOptions
               (Some {| pss_HashAlgorithm := h; pss_SaltLength := saltLength |})
        else SignDataRequest_HashAlgorithm h).

Definition isRSA (kt : KeyType) : bool :=
  bool_decide (kt = KeyType_RSA_2048) || bool_decide (kt = KeyType_RSA_4096).

(** The table of (key type, hash, padding) triples as the specification
    lists it, with the elliptic-curve rows at [pss = false] only. *)
Definition listed_mapping (kt : KeyType) (h : HashAlgorithm) (isPSS : bool)
  : option SigningAlgorithmSpec :=
  match kt, h, isPSS with
  | KeyType_EC_P256, HashAlgorithm_SHA256, false => Some SigningAlgorithmSpecEcdsaSha256
  | KeyType_EC_P384, HashAlgorithm_SHA384, false => Some SigningAlgorithmSpecEcdsaSha384
  | (KeyType_RSA_2048 | KeyType_RSA_4096), HashAlgorithm_SHA256, false =>
      Some SigningAlgorithmSpecRsassaPkcs1V15Sha256
  | (KeyType_RSA_2048 | KeyType_RSA_4096), HashAlgorithm_SHA384, false =>
      Some SigningAlgorithmSpecRsassaPkcs1V15Sha384
  | (KeyType_RSA_2048 | KeyType_RSA_4096), HashAlgorithm_SHA512, false =>
      Some SigningAlgorithmSpecRsassaPkcs1V15Sha512
  | (KeyType_RSA_2048 | KeyType_RSA_4096), HashAlgorithm_SHA256, true =>
      Some SigningAlgorithmSpecRsassaPssSha256
  | (KeyType_RSA_2048 | KeyType_RSA_4096), HashAlgorithm_SHA384, true =>
      Some SigningAlgorithmSpecRsassaPssSha384
  | (KeyType_RSA_2048 | KeyType_RSA_4096), HashAlgorithm_SHA512, true =>
      Some SigningAlgorithmSpecRsassaPssSha512
  | _, _, _ => None
  end.

(** The same table with the elliptic-curve rows at either padding flag. *)
Definition code_mapping (kt : KeyType) (h : HashAlgorithm) (isPSS : bool)
  : option SigningAlgorithmSpec :=
  match kt, h with
  | KeyType_EC_P256, HashAlgorithm_SHA256 => Some SigningAlgorithmSpecEcdsaSha256
  | KeyType_EC_P384, HashAlgorithm_SHA384 => Some SigningAlgorithmSpecEcdsaSha384
  | _, _ => listed_mapping kt h isPSS
  end.

(** A candidate entry with a required field missing. *)
Definition missing_field (spireKeyID : string) (e : keyEntry) : Prop :=
  spireKeyID = "" ∨ KMSKeyID e = "" ∨ Alias e = "" ∨ PublicKey e = None ∨
  ∃ pk, PublicKey e = Some pk ∧
        (Id pk = "" ∨ Type_ pk = KeyType_UNSPECIFIED_KEY_TYPE ∨ PkixData pk = []).

(** All the offsets at which [substr] occurs in [s], overlapping ones too. *)
Fixpoint occurrences (s substr : string) : list nat :=
  (if String.prefix substr s then [0] else []) ++
  match s with
  | EmptyString => []
  | String _ s' => S <$> occurrences s' substr
  end.

Definition contains (s substr : string) : Prop := occurrences s substr ≠ [].

(** A listed alias with both its name and its target key id. *)
Definition listed (alias target : string) : AliasListEntry :=
  {| AliasName := Some alias; TargetKeyId := Some target |}.

Section Vocabulary.
Context {K : Type} `{!kmsClient K}.

(** In [w] the service answers [DescribeKey] for [alias] with the metadata
    [md], which leaves the world in [w1]. *)
Definition describes (w : World K) (alias : string) (md : KeyMetadata) (w1 : World K)
  : Prop :=
  ∃ resp, remote DescribeKey CallDescribeKey {| dki_KeyId := Some alias |} w
          = (Ok (inl resp), w1)
          ∧ dko_KeyMetadata resp = Some md.

(** The three benign reasons to pass over a listed alias: the key is
    disabled, the alias does not decode under the configured prefix, the key
    spec is not supported. *)
Definition skippable (w : World K) (alias : string) (w1 : World K) : Prop :=
  ∃ md, describes w alias md w1
        ∧ (km_Enabled md = false
           ∨ is_Err (spireKeyIDFromAlias (plugin w) alias)
           ∨ is_Err (keyTypeFromKeySpec (km_CustomerMasterKeySpec md))).

(** The two failed calls: [DescribeKey] itself, or [GetPublicKey] once the
    key is enabled, decoded and of a supported spec. *)
Definition fatal (w : World K) (alias : string) (e : error) (w' : World K) : Prop :=
  (∃ msg, remote DescribeKey CallDescribeKey {| dki_KeyId := Some alias |} w
          = (Ok (inr msg), w')
          ∧ e = ErrDescribeKey msg)
  ∨ (∃ md w1 id kt msg,
       describes w alias md w1
       ∧ km_Enabled md = true
       ∧ spireKeyIDFromAlias (plugin w) alias = Ok id
       ∧ keyTypeFromKeySpec (km_CustomerMasterKeySpec md) = Ok kt
       ∧ remote GetPublicKey_ CallGetPublicKey {| gpi_KeyId := Some alias |} w1
         = (Ok (inr msg), w')
       ∧ e = ErrGetPublicKey msg).

(** [reaches marker w0 item rest w]: the listing loop entered with
    [marker] in world [w0] comes, on this page or on a later one, to the
    listed [item] in world [w], with [rest] left on its page. *)
Inductive reaches :
  option string → World K → AliasListEntry → list AliasListEntry → World K → Prop :=
| reaches_on_page marker w0 resp w1 pre item rest w :
    remote ListAliases CallListAliases {| lai_Marker := marker |} w0
    = (Ok (inl resp), w1) →
    Aliases resp = (pre ++ item :: rest)%list →
    rangeAliases pre w1 = (Ok tt, w) →
    reaches marker w0 item rest w
| reaches_later marker w0 m w0' item rest w :
    fetchAliasesPage marker w0 = (Ok (Some m), w0') →
    reaches (Some m) w0' item rest w →
    reaches marker w0 item rest w.

(** The world in which [Configure] starts its listing loop: prefix set and
    client created. *)
Definition configured_for (config : Config) (w : World K) : World K :=
  let w1 := with_plugin (set_keyPrefix (KeyPrefix config)) w in
  with_plugin (set_client (hooks_newClient (plugin w1) config).1) w1.

(** [w] with the entries of [m] put under those of its cache. *)
Definition carry (m : gmap string keyEntry) (w : World K) : World K :=
  with_plugin (λ p, set_entries (entries p ∪ m) p) w.

Definition carry_result {A} (m : gmap string keyEntry) (r : outcome A * World K)
  : outcome A * World K := (r.1, carry m r.2).

(** A computation that runs the same with entries carried under the cache. *)
Definition commutes {A} (f : M K A) : Prop :=
  ∀ m w, f (carry m w) = carry_result m (f w).

(** [w] with an empty cache. *)
Definition emptied (w : World K) : World K :=
  with_plugin (set_entries ∅) w.

(** The key creation of [GenerateKey] started in [w] succeeds: the service
    creates the key and answers the public key request with [pub]. *)
Definition creates (w : World K) (spireKeyID : string) (keyType : KeyType)
    (pub : GetPublicKeyOutput) (w' : World K) : Prop :=
  ∃ keySpec key md wa,
    keySpecFromKeyType keyType = Ok keySpec
    ∧ remote CreateKey CallCreateKey
        {| cki_Description := Some (descriptionFromSpireKeyID (plugin w) spireKeyID);
           cki_KeyUsage := KeyUsageTypeSignVerify;
           cki_CustomerMasterKeySpec := keySpec |} w
      = (Ok (inl key), wa)
    ∧ cko_KeyMetadata key = Some md
    ∧ remote GetPublicKey_ CallGetPublicKey {| gpi_KeyId := km_KeyId md |} wa
      = (Ok (inl pub), w').

(** Two worlds with the same cache and key prefix; the service may have
    moved on between them. *)
Definition same_cache (w w' : World K) : Prop :=
  entries (plugin w) = entries (plugin w') ∧ keyPrefix (plugin w) = keyPrefix (plugin w').

End Vocabulary.

(* ===================================================================== *)
(** ** A scripted client, for running the plugin on concrete scenarios    *)
(* ===================================================================== *)

Module Scripted.

(** The client answers from a script: each call takes the next answer,
    and fails when the script has run out or holds an answer to another
    operation. *)
Inductive answer :=
| OnCreateKey (r : CreateKeyOutput + string)
| OnGetPublicKey (r : GetPublicKeyOutput + string)
| OnDescribeKey (r : DescribeKeyOutput + string)
| OnListAliases (r : ListAliasesOutput + string)
| OnCreateAlias (r : unit + string)
| OnUpdateAlias (r : unit + string)
| OnScheduleKeyDeletion (r : unit + string)
| OnSign (r : SignOutput + string).

Definition off_script {O} (k : list answer) : (O + string) * list answer :=
  (inr "unexpected call", k).

#[global] Instance scripted : kmsClient (list answer) := {|
  CreateKey k _ :=
    match k with OnCreateKey r :: k' => (r, k') | _ => off_script k end;
  GetPublicKey_ k _ :=
    match k with OnGetPublicKey r :: k' => (r, k') | _ => off_script k end;
  DescribeKey k _ :=
    match k with OnDescribeKey r :: k' => (r, k') | _ => off_script k end;
  ListAliases k _ :=
    match k with OnListAliases r :: k' => (r, k') | _ => off_script k end;
  CreateAlias k _ :=
    match k with OnCreateAlias r :: k' => (r, k') | _ => off_script k end;
  UpdateAlias k _ :=
    match k with OnUpdateAlias r :: k' => (r, k') | _ => off_script k end;
  ScheduleKeyDeletion k _ :=
    match k with OnScheduleKeyDeletion r :: k' => (r, k') | _ => off_script k end;
  Sign k _ :=
    match k with OnSign r :: k' => (r, k') | _ => off_script k end;
|}.

(** A configured plugin (default prefix) over the script [k], with cache
    [m]. *)
Definition configured (m : gmap string keyEntry) (k : list answer) : World (list answer) :=
  {| plugin := {| entries := m; client := Some k; keyPrefix := defaultKeyPrefix;
                  hooks_newClient := λ _, (Some k, None) |};
     calls := []; goroutines := [] |}.

Definition key_created (id : string) (spec : CustomerMasterKeySpec) : answer :=
  OnCreateKey (inl {| cko_KeyMetadata :=
    Some {| km_KeyId := Some id; km_Enabled := true;
            km_CustomerMasterKeySpec := spec |} |}).

Definition key_described (id : string) (enabled : bool) (spec : CustomerMasterKeySpec)
  : answer :=
  OnDescribeKey (inl {| dko_KeyMetadata :=
    Some {| km_KeyId := Some id; km_Enabled := enabled;
            km_CustomerMasterKeySpec := spec |} |}).

Definition pkix : bytes := [Byte.x30; Byte.x59].

Definition public_key (id : string) : answer :=
  OnGetPublicKey (inl {| gpo_KeyId := Some id; gpo_PublicKey := pkix |}).

Definition page (l : list AliasListEntry) (next : option string) : answer :=
  OnListAliases (inl {| Aliases := l; NextMarker := next |}).

(** The configuration document is taken to be its region, no prefix set. *)
Definition decode (c : string) : Config + string :=
  inl {| AccessKeyID := ""; SecretAccessKey := ""; Region := c; KeyPrefix := "" |}.

Definition an_entry (id kmsId : string) : keyEntry :=
  {| KMSKeyID := kmsId;
     Alias := aliasPrefix +:+ defaultKeyPrefix +:+ id;
     PublicKey := Some {| Id := id; Type_ := KeyType_EC_P256; PkixData := pkix |} |}.

(** A plugin configured with key prefix [prefix]. *)
Definition prefixed (prefix : string) : Plugin (list answer) :=
  {| entries := ∅; client := Some []; keyPrefix := prefix;
     hooks_newClient := λ _, (Some [], None) |}.

(** Two generations of the key "k1": created and aliased, then created
    again and the alias repointed. *)
Definition k1_request : GenerateKeyRequest :=
  {| gkr_KeyId := "k1"; gkr_KeyType := KeyType_EC_P256 |}.

Definition rotation_script : list answer :=
  [key_created "id-1" CustomerMasterKeySpecEccNistP256; public_key "id-1";
   OnCreateAlias (inl tt);
   key_created "id-2" CustomerMasterKeySpecEccNistP256; public_key "id-2";
   OnUpdateAlias (inl tt)].

(** The key is created and the alias call is refused. *)
Definition alias_refused_script : list answer :=
  [key_created "id-2" CustomerMasterKeySpecEccNistP256; public_key "id-2";
   OnUpdateAlias (inr "access denied")].

(** A configuration request naming a region, and what it validates to. *)
Definition region_request : ConfigureRequest := {| Configuration := "us-east-1" |}.

Definition region_config : Config :=
  {| AccessKeyID := ""; SecretAccessKey := ""; Region := "us-east-1";
     KeyPrefix := defaultKeyPrefix |}.

(** One page of two aliases, the first of a disabled key. *)
Definition disabled_script : list answer :=
  [page [listed "alias/SPIRE_SERVER_KEY/a" "id-a";
         listed "alias/SPIRE_SERVER_KEY/b" "id-b"] None;
   key_described "id-a" false CustomerMasterKeySpecRsa2048;
   key_described "id-b" true CustomerMasterKeySpecRsa2048;
   public_key "id-b"].

(** One page of one alias, on which [DescribeKey] fails. *)
Definition failing_script : list answer :=
  [page [listed "alias/SPIRE_SERVER_KEY/a" "id-a"] None;
   OnDescribeKey (inr "throttled")].

(** One page of one alias that is not of the shape "alias/" + prefix + id. *)
Definition foreign_script : list answer :=
  [page [listed "other/SPIRE_SERVER_KEY/x" "id-x"] None;
   key_described "id-x" true CustomerMasterKeySpecEccNistP256;
   public_key "id-x"].

(** The world once the first page has been listed. *)
Definition first_page_listed (k : list answer) : World (list answer) :=
  (remote ListAliases CallListAliases {| lai_Marker := None |}
     (configured_for region_config (configured ∅ k))).2.

(** Two pages: an alias under the prefix and one under another prefix,
    then an alias under the prefix whose key is disabled. *)
Definition two_page_script : list answer :=
  [page [listed "alias/SPIRE_SERVER_KEY/a" "id-a";
         listed "alias/OTHER_CONSUMER/b" "id-b"] (Some "page-2");
   key_described "id-a" true CustomerMasterKeySpecRsa2048;
   public_key "id-a";
   key_described "id-b" true CustomerMasterKeySpecRsa2048;
   page [listed "alias/SPIRE_SERVER_KEY/c" "id-c"] None;
   key_described "id-c" false CustomerMasterKeySpecEccNistP256].

(** One alias of an unsupported key spec, then one on which [GetPublicKey]
    fails. *)
Definition unsupported_then_failing_script : list answer :=
  [page [listed "alias/SPIRE_SERVER_KEY/a" "id-a";
         listed "alias/SPIRE_SERVER_KEY/b" "id-b"] None;
   key_described "id-a" true "SYMMETRIC_DEFAULT";
   key_described "id-b" true CustomerMasterKeySpecRsa4096;
   OnGetPublicKey (inr "unavailable")].

(** A configured plugin that holds an entry, and a listing with no alias. *)
Definition holding_old : World (list answer) :=
  configured {["old" := an_entry "old" "id-0"]} [page [] None].

End Scripted.

(* ===================================================================== *)
(** ** Further vocabulary: the cache invariant and the call shapes       *)
(* ===================================================================== *)

Section Conventions.
Context {K : Type} `{!kmsClient K}.

(** [GetPluginInfo] answers with an empty response. *)
Definition GetPluginInfo : M K unit := ret tt.

(** The cache as the plugin keeps it: every entry has all its fields and
    is filed under the id of its public key. *)
Definition cache_ok (m : gmap string keyEntry) : Prop :=
  ∀ k e, m !! k = Some e →
         ¬ missing_field k e ∧ ∃ pk, PublicKey e = Some pk ∧ Id pk = k.

(** A listing record with both its alias name and its target key id. *)
Definition complete (a : AliasListEntry) : bool :=
  match AliasName a, TargetKeyId a with
  | Some _, Some _ => true
  | _, _ => false
  end.

(** An entry as reconciliation files it under [k]: all fields present, the
    alias decodes to [k] under the plugin's prefix, and the key type is one
    of the supported ones. *)
Definition reconciled (p : Plugin K) (k : string) (e : keyEntry) : Prop :=
  ¬ missing_field k e
  ∧ spireKeyIDFromAlias p (Alias e) = Ok k
  ∧ ∃ pk, PublicKey e = Some pk ∧ Id pk = k ∧ Type_ pk ∈ supportedKeyTypes.

(** The alias call of [GenerateKey] for the new entry: the alias is
    created when the cache had no entry, repointed when it had one. *)
Definition alias_call (old : option keyEntry) (newEntry : keyEntry) : kmsCall :=
  match old with
  | None => CallCreateAlias {| cai_AliasName := Some (Alias newEntry);
                               cai_TargetKeyId := Some (KMSKeyID newEntry) |}
  | Some _ => CallUpdateAlias {| uai_AliasName := Some (Alias newEntry);
                                 uai_TargetKeyId := Some (KMSKeyID newEntry) |}
  end.

(** The same call as the plugin issues it. *)
Definition repoint (old : option keyEntry) (newEntry : keyEntry) : M K (unit + string) :=
  match old with
  | None => remote CreateAlias CallCreateAlias
              {| cai_AliasName := Some (Alias newEntry);
                 cai_TargetKeyId := Some (KMSKeyID newEntry) |}
  | Some _ => remote UpdateAlias CallUpdateAlias
                {| uai_AliasName := Some (Alias newEntry);
                   uai_TargetKeyId := Some (KMSKeyID newEntry) |}
  end.

Definition alias_error (old : option keyEntry) (msg : string) : error :=
  match old with
  | None => ErrCreateAlias msg
  | Some _ => ErrUpdateAlias msg
  end.

(** The world once the goroutine for a superseded entry has been started:
    nothing is started when there was no entry. *)
Definition started (old : option keyEntry) (w : World K) : World K :=
  match old with
  | None => w
  | Some oldEntry => {| plugin := plugin w; calls := calls w;
                        goroutines := goroutines w ++ [oldEntry] |}
  end.

(** The [CreateKey] request of [createKey]. *)
Definition create_input (p : Plugin K) (spireKeyID : string)
    (keySpec : CustomerMasterKeySpec) : CreateKeyInput :=
  {| cki_Description := Some (descriptionFromSpireKeyID p spireKeyID);
     cki_KeyUsage := KeyUsageTypeSignVerify;
     cki_CustomerMasterKeySpec := keySpec |}.

(** The [Sign] request of [SignData] for a cached entry. *)
Definition sign_input (e : keyEntry) (data : bytes) (algo : SigningAlgorithmSpec)
  : SignInput :=
  {| si_KeyId := Some (Alias e); si_Message := data;
     si_MessageType := MessageTypeDigest; si_SigningAlgorithm := algo |}.

(** The request that schedules the deletion of a superseded key. *)
Definition deletion_input (oldEntry : keyEntry) : ScheduleKeyDeletionInput :=
  {| skd_KeyId := Some (KMSKeyID oldEntry); skd_PendingWindowInDays := Some 7%Z |}.

End Conventions.

(** The six RSA and two ECDSA signing algorithms the plugin can ask for. *)
Definition ecdsaAlgorithms : list SigningAlgorithmSpec :=
  [SigningAlgorithmSpecEcdsaSha256; SigningAlgorithmSpecEcdsaSha384].

Definition rsaAlgorithms : list SigningAlgorithmSpec :=
  [SigningAlgorithmSpecRsassaPkcs1V15Sha256; SigningAlgorithmSpecRsassaPkcs1V15Sha384;
   SigningAlgorithmSpecRsassaPkcs1V15Sha512; SigningAlgorithmSpecRsassaPssSha256;
   SigningAlgorithmSpecRsassaPssSha384; SigningAlgorithmSpecRsassaPssSha512].

Module Scenario.
Import Scripted.

(** A plugin that holds "k1" (an EC P-256 key), over the script [k]. *)
Definition holding_k1 (k : list answer) : World (list answer) :=
  configured {["k1" := an_entry "k1" "id-1"]} k.

Definition sign_request : SignDataRequest :=
  {| sdr_KeyId := "k1"; sdr_Data := [Byte.x01; Byte.x02];
     sdr_SignerOpts := signerOptsOf HashAlgorithm_SHA256 false 0 |}.

Definition signed : SignOutput := {| so_Signature := [Byte.xaa; Byte.xbb] |}.

(** A rotation of "k1": a second key, and the alias repointed to it. *)
Definition rotate_script : list answer :=
  [key_created "id-2" CustomerMasterKeySpecEccNistP256; public_key "id-2";
   OnUpdateAlias (inl tt)].


(** A rotation in which the key is created and its public key is refused. *)
Definition no_public_key_script : list answer :=
  [key_created "id-2" CustomerMasterKeySpecEccNistP256;
   OnGetPublicKey (inr "denied")].

(** A listing whose one alias is "alias/" + prefix with nothing after it. *)
Definition empty_id_script : list answer :=
  [page [listed "alias/SPIRE_SERVER_KEY/" "id-e"] None;
   key_described "id-e" true CustomerMasterKeySpecRsa2048;
   public_key "id-e"].

(** A listing with a record without target between two usable ones. *)
Definition incomplete_records : list AliasListEntry :=
  [listed "alias/SPIRE_SERVER_KEY/a" "id-a";
   {| AliasName := Some "alias/SPIRE_SERVER_KEY/n"; TargetKeyId := None |};
   listed "alias/SPIRE_SERVER_KEY/b" "id-b"].

(** A configuration document that does not parse, for [decode_or_fail]. *)
Definition decode_or_fail (c : string) : Config + string :=
  if String.eqb c "" then inr "unexpected end of input" else decode c.

(** A plugin whose client hook fails. *)
Definition without_client : World (list answer) :=
  {| plugin := {| entries := {["k1" := an_entry "k1" "id-1"]};
                  client := Some [];
                  keyPrefix := "OLD/";
                  hooks_newClient := λ _, (None, Some "no credentials") |};
     calls := []; goroutines := [] |}.

End Scenario.

(* ===================================================================== *)
(** ** Algorithm mapper: key specs and signing algorithms                *)
(* ===================================================================== *)

Lemma keyTypeFromKeySpec_unsupported (spec : CustomerMasterKeySpec) :
  spec ∉ supportedKeySpecs →
  keyTypeFromKeySpec spec = Err (ErrUnsupportedKeySpec spec).
Proof.
  intros Hn. unfold keyTypeFromKeySpec.
  repeat match goal with
  | |- context [String.eqb spec ?c] =>
      destruct (String.eqb_spec spec c) as [->|_];
      [ exfalso; apply Hn; unfold supportedKeySpecs; repeat constructor | ]
  end.
  reflexivity.
Qed.

Lemma keySpecFromKeyType_supported (kt : KeyType) :
  kt ∈ supportedKeyTypes →
  ∃ spec, keySpecFromKeyType kt = Ok spec ∧ spec ∈ supportedKeySpecs
          ∧ keyTypeFromKeySpec spec = Ok kt.
Proof.
  unfold supportedKeyTypes. rewrite !elem_of_cons, elem_of_nil.
  intros [->|[->|[->|[->|[]]]]]; eexists; (split; [reflexivity|]); split;
    try reflexivity; unfold supportedKeySpecs; repeat constructor.
Qed.

Lemma keySpecFromKeyType_unsupported (kt : KeyType) :
  kt ∉ supportedKeyTypes →
  keySpecFromKeyType kt = Err ErrUnsupportedKeyType1024
  ∨ keySpecFromKeyType kt = Err ErrUnknownKeyType.
Proof.
  intros Hn. destruct kt; simpl; auto;
    exfalso; apply Hn; unfold supportedKeyTypes; repeat constructor.
Qed.

(** C8. [keySpecFromKeyType] and [keyTypeFromKeySpec] are mutually inverse
    on the four supported key types: a supported key type maps to a
    supported key spec that maps back to it.  [keySpecFromKeyType] fails for
    RSA_1024 and for every other key type outside the four, and
    [keyTypeFromKeySpec] fails for every key spec outside the four
    supported specs. *)
Theorem keySpec_keyType_inverse (kt : KeyType) (spec : CustomerMasterKeySpec) :
  (kt ∈ supportedKeyTypes →
     ∃ s, keySpecFromKeyType kt = Ok s ∧ s ∈ supportedKeySpecs
          ∧ keyTypeFromKeySpec s = Ok kt)
  ∧ keySpecFromKeyType KeyType_RSA_1024 = Err ErrUnsupportedKeyType1024
  ∧ (kt ∉ supportedKeyTypes → is_Err (keySpecFromKeyType kt))
  ∧ (spec ∉ supportedKeySpecs → is_Err (keyTypeFromKeySpec spec))
  ∧ (spec ∈ supportedKeySpecs →
     ∃ t, keyTypeFromKeySpec spec = Ok t ∧ keySpecFromKeyType t = Ok spec).
Proof.
  split; [apply keySpecFromKeyType_supported|].
  split; [reflexivity|].
  split.
  { intros Hn. destruct (keySpecFromKeyType_unsupported kt Hn) as [E|E];
      rewrite E; eexists; reflexivity. }
  split.
  { intros Hn. rewrite keyTypeFromKeySpec_unsupported by exact Hn.
    eexists; reflexivity. }
  unfold supportedKeySpecs. rewrite !elem_of_cons, elem_of_nil.
  intros [->|[->|[->|[->|[]]]]]; eexists; split; reflexivity.
Qed.

Lemma keySpec_keyType_inverse_witness :
  (∃ s, keySpecFromKeyType KeyType_EC_P384 = Ok s ∧ s ∈ supportedKeySpecs
        ∧ keyTypeFromKeySpec s = Ok KeyType_EC_P384)
  ∧ is_Err (keySpecFromKeyType (KeyType_UNRECOGNIZED 17))
  ∧ is_Err (keyTypeFromKeySpec "SYMMETRIC_DEFAULT")
  ∧ (∃ t, keyTypeFromKeySpec "RSA_4096" = Ok t ∧ keySpecFromKeyType t = Ok "RSA_4096").
Proof.
  split.
  { apply (keySpec_keyType_inverse KeyType_EC_P384 "").
    unfold supportedKeyTypes. repeat constructor. }
  split.
  { apply (keySpec_keyType_inverse (KeyType_UNRECOGNIZED 17) "").
    unfold supportedKeyTypes. intros H.
    repeat (apply elem_of_cons in H as [H|H]; [discriminate H|]).
    apply elem_of_nil in H. exact H. }
  split.
  { apply (keySpec_keyType_inverse KeyType_EC_P256 "SYMMETRIC_DEFAULT").
    unfold supportedKeySpecs. intros H.
    repeat (apply elem_of_cons in H as [H|H]; [discriminate H|]).
    apply elem_of_nil in H. exact H. }
  apply (keySpec_keyType_inverse KeyType_EC_P256 "RSA_4096").
  unfold supportedKeySpecs, CustomerMasterKeySpecRsa4096. repeat constructor.
Defined.

(** C5, a triple outside the listed table: for an EC_P256 key
    with SHA256, the options with PSS padding are not a row of the listed
    table, and the code answers with ECDSA-SHA256 instead of failing. *)
Lemma signingAlgorithm_ec_pss_not_rejected :
  listed_mapping KeyType_EC_P256 HashAlgorithm_SHA256 true = None
  ∧ signingAlgorithmForKMS KeyType_EC_P256 (signerOptsOf HashAlgorithm_SHA256 true 32)
    = Ok SigningAlgorithmSpecEcdsaSha256
  ∧ ¬ is_Err (signingAlgorithmForKMS KeyType_EC_P256
                (signerOptsOf HashAlgorithm_SHA256 true 32)).
Proof.
  split; [reflexivity|]. split; [reflexivity|].
  intros [e He]. discriminate He.
Qed.

(** C5 (amended). [signingAlgorithmForKMS] returns ECDSA-SHA256 for
    (EC_P256, SHA256) and ECDSA-SHA384 for (EC_P384, SHA384) with either
    padding flag, the RSA PKCS1v15 and PSS specs for RSA_2048 and RSA_4096
    with SHA256, SHA384 or SHA512 as listed; it fails with "hash algorithm
    is required" when the hash is unspecified, and with "unsupported
    combination" on every other triple, such as (EC_P256, SHA384, false). *)
Theorem signingAlgorithmForKMS_table
    (kt : KeyType) (h : HashAlgorithm) (isPSS : bool) (salt : Z) :
  signingAlgorithmForKMS kt (signerOptsOf h isPSS salt) =
    if bool_decide (h = HashAlgorithm_UNSPECIFIED_HASH_ALGORITHM)
    then Err ErrHashAlgorithmRequired
    else match code_mapping kt h isPSS with
         | Some algo => Ok algo
         | None => Err (ErrUnsupportedCombination kt h)
         end.
Proof.
  destruct kt, h, isPSS; reflexivity.
Qed.

(* ===================================================================== *)
(** ** The cache: admission and lookup                                   *)
(* ===================================================================== *)

Section Cache.
Context {K : Type} `{!kmsClient K}.

Lemma eqb_empty_true (s : string) : s = "" → String.eqb s "" = true.
Proof. intros ->. reflexivity. Qed.

Lemma eqb_empty_false (s : string) : s ≠ "" → String.eqb s "" = false.
Proof. intros Hn. destruct (String.eqb_spec s ""); [contradiction|reflexivity]. Qed.

Lemma length_zero_false {A} (l : list A) : l ≠ [] → (length l =? 0)%nat = false.
Proof. destruct l; [contradiction|reflexivity]. Qed.

Lemma setEntry_rejects (spireKeyID : string) (e : keyEntry) (w : World K) :
  missing_field spireKeyID e → ∃ err, setEntry spireKeyID e w = (Err err, w).
Proof.
  unfold setEntry.
  destruct (String.eqb_spec spireKeyID "") as [|N1]; [eexists; reflexivity|].
  destruct (String.eqb_spec (KMSKeyID e) "") as [|N2]; [eexists; reflexivity|].
  destruct (String.eqb_spec (Alias e) "") as [|N3]; [eexists; reflexivity|].
  destruct (PublicKey e) as [pk|] eqn:Hpk; [|eexists; reflexivity].
  destruct (String.eqb_spec (Id pk) "") as [|N4]; [eexists; reflexivity|].
  case_bool_decide as N5; [eexists; reflexivity|].
  destruct (PkixData pk) as [|b bs] eqn:Hd; [eexists; reflexivity|].
  intros [?|[?|[?|[?|(pk' & Heq & [?|[?|?]])]]]]; try congruence;
    injection Heq as <-; congruence.
Qed.

Lemma setEntry_admits (spireKeyID : string) (e : keyEntry) (w : World K) :
  ¬ missing_field spireKeyID e →
  setEntry spireKeyID e w =
    (Ok tt, with_plugin (λ p, set_entries (<[spireKeyID := e]> (entries p)) p) w).
Proof.
  intros Hn. unfold setEntry, missing_field in *.
  rewrite eqb_empty_false by tauto.
  rewrite eqb_empty_false by tauto.
  rewrite eqb_empty_false by tauto.
  destruct (PublicKey e) as [pk|]; [|tauto].
  rewrite eqb_empty_false by (intros ?; apply Hn; eauto 10).
  rewrite bool_decide_eq_false_2 by (intros ?; apply Hn; eauto 10).
  rewrite length_zero_false by (intros ?; apply Hn; eauto 10).
  reflexivity.
Qed.

(** Whatever [setEntry] answers, it touches nothing but the cache. *)
Lemma setEntry_frame (spireKeyID : string) (e : keyEntry) (w w' : World K) r :
  setEntry spireKeyID e w = (r, w') →
  client (plugin w') = client (plugin w) ∧ keyPrefix (plugin w') = keyPrefix (plugin w)
  ∧ calls w' = calls w ∧ goroutines w' = goroutines w
  ∧ (r ≠ Ok tt → w' = w).
Proof.
  unfold setEntry, throw.
  repeat match goal with
  | |- context [if ?b then _ else _] => destruct b
  | |- context [match PublicKey e with _ => _ end] => destruct (PublicKey e)
  end; intros [= <- <-]; simpl; repeat split; congruence.
Qed.

(** C4. A candidate entry with a required field missing (empty key id, empty
    KMS key id, empty alias, no public key, empty public-key id, unspecified
    key type, or empty PKIX data) is rejected by [setEntry] with an error
    and the plugin, its cache included, is left as it was; a candidate with
    every field present is admitted under its key id. *)
Theorem setEntry_validates (spireKeyID : string) (e : keyEntry) (w : World K) :
  (missing_field spireKeyID e →
     ∃ err, setEntry spireKeyID e w = (Err err, w))
  ∧ (¬ missing_field spireKeyID e →
     ∃ w', setEntry spireKeyID e w = (Ok tt, w')
           ∧ entries (plugin w') = <[spireKeyID := e]> (entries (plugin w))).
Proof.
  split; [apply setEntry_rejects|].
  intros Hn. eexists. split; [apply setEntry_admits, Hn|reflexivity].
Qed.

(** C7. [SignData] with a non-empty key id that the cache does not hold,
    and with signer options, fails with "no such key"; the call log and the
    cache (the whole state) are as before, so no call was issued. *)
Theorem SignData_unknown_key (req : SignDataRequest) (w : World K) :
  sdr_KeyId req ≠ "" →
  sdr_SignerOpts req ≠ None →
  entries (plugin w) !! sdr_KeyId req = None →
  ∃ w', SignData req w = (Err (ErrNoSuchKey (sdr_KeyId req)), w')
        ∧ calls w' = calls w
        ∧ entries (plugin w') = entries (plugin w)
        ∧ w' = w.
Proof.
  intros Hid Hopts Habsent. exists w. repeat split.
  unfold SignData. rewrite eqb_empty_false by exact Hid.
  destruct (sdr_SignerOpts req); [|contradiction].
  unfold bind, entry. rewrite Habsent. reflexivity.
Qed.

End Cache.

Lemma setEntry_validates_witness :
  (∃ err, setEntry "k1" (Scripted.an_entry "" "id-1") (Scripted.configured ∅ [])
          = (Err err, Scripted.configured ∅ []))
  ∧ (∃ w', setEntry "k1" (Scripted.an_entry "k1" "id-1") (Scripted.configured ∅ [])
           = (Ok tt, w')
           ∧ entries (plugin w')
             = <["k1" := Scripted.an_entry "k1" "id-1"]>
                 (entries (plugin (Scripted.configured ∅ [])))).
Proof.
  split.
  - apply (setEntry_validates "k1" (Scripted.an_entry "" "id-1")).
    right; right; right; right. eexists. split; [reflexivity|]. left. reflexivity.
  - apply (setEntry_validates "k1" (Scripted.an_entry "k1" "id-1")).
    intros [H|[H|[H|[H|(pk & Heq & [H|[H|H]])]]]]; try discriminate H;
      injection Heq as <-; discriminate H.
Defined.

Lemma SignData_unknown_key_witness :
  ∃ w', SignData {| sdr_KeyId := "k2"; sdr_Data := [];
                    sdr_SignerOpts := signerOptsOf HashAlgorithm_SHA256 false 0 |}
          (Scripted.configured {["k1" := Scripted.an_entry "k1" "id-1"]} [])
        = (Err (ErrNoSuchKey "k2"), w')
        ∧ calls w' = []
        ∧ entries (plugin w') = {["k1" := Scripted.an_entry "k1" "id-1"]}
        ∧ w' = Scripted.configured {["k1" := Scripted.an_entry "k1" "id-1"]} [].
Proof.
  refine (SignData_unknown_key
            {| sdr_KeyId := "k2"; sdr_Data := [];
               sdr_SignerOpts := signerOptsOf HashAlgorithm_SHA256 false 0 |}
            (Scripted.configured {["k1" := Scripted.an_entry "k1" "id-1"]} [])
            _ _ _).
  - discriminate.
  - discriminate.
  - vm_compute. reflexivity.
Defined.

(* ===================================================================== *)
(** ** Strings: occurrences, [Index], [Count] and [SplitAfter]           *)
(* ===================================================================== *)

Section Strings.
Implicit Types s t sep : string.

Lemma string_app_nil t : "" +:+ t = t.
Proof. reflexivity. Qed.

Lemma string_app_cons c s t : String c s +:+ t = String c (s +:+ t).
Proof. reflexivity. Qed.

Lemma string_app_assoc s t u : (s +:+ t) +:+ u = s +:+ (t +:+ u).
Proof.
  induction s as [|c s IH]; [reflexivity|].
  rewrite !string_app_cons, IH. reflexivity.
Qed.

Lemma string_app_length s t :
  String.length (s +:+ t) = (String.length s + String.length t)%nat.
Proof.
  induction s as [|c s IH]; [reflexivity|].
  rewrite string_app_cons. simpl. rewrite IH. reflexivity.
Qed.

Lemma string_drop_empty n : string_drop n "" = "".
Proof. destruct n; reflexivity. Qed.

Lemma string_drop_app s t : string_drop (String.length s) (s +:+ t) = t.
Proof.
  induction s as [|c s IH]; [reflexivity|].
  rewrite string_app_cons. simpl. exact IH.
Qed.

Lemma string_take_app s t : string_take (String.length s) (s +:+ t) = s.
Proof.
  induction s as [|c s IH]; [reflexivity|].
  rewrite string_app_cons. simpl. rewrite IH. reflexivity.
Qed.

Lemma string_drop_length n s :
  String.length (string_drop n s) = (String.length s - n)%nat.
Proof.
  revert s. induction n as [|n IH]; intros [|c s]; simpl; try reflexivity.
  apply IH.
Qed.

Lemma string_drop_drop n k s :
  string_drop k (string_drop n s) = string_drop (n + k) s.
Proof.
  revert s. induction n as [|n IH]; intros s; simpl; [reflexivity|].
  destruct s as [|c s]; [apply string_drop_empty|apply IH].
Qed.

Lemma prefix_empty s : String.prefix "" s = true.
Proof. destruct s; reflexivity. Qed.

Lemma prefix_of_empty sep : String.prefix sep "" = true → sep = "".
Proof. destruct sep; [reflexivity|discriminate]. Qed.

Lemma prefix_app sep t : String.prefix sep (sep +:+ t) = true.
Proof.
  induction sep as [|c sep IH]; [apply prefix_empty|].
  rewrite string_app_cons. simpl.
  destruct (ascii_dec c c); [exact IH|contradiction].
Qed.

Lemma prefix_length sep s :
  String.prefix sep s = true → (String.length sep ≤ String.length s)%nat.
Proof.
  revert s. induction sep as [|c sep IH]; intros [|d s]; simpl; try lia.
  destruct (ascii_dec c d); [|intros [=]].
  intros H. apply IH in H. lia.
Qed.

Lemma prefix_app_l sep s t :
  String.prefix sep s = true → String.prefix sep (s +:+ t) = true.
Proof.
  revert s. induction sep as [|c sep IH]; intros s.
  - intros _. apply prefix_empty.
  - destruct s as [|d s]; [intros [=]|].
    rewrite string_app_cons. simpl.
    destruct (ascii_dec c d); [apply IH|intros [=]].
Qed.

Lemma prefix_app_inv sep s t :
  String.prefix sep (s +:+ t) = true →
  (String.length sep ≤ String.length s)%nat →
  String.prefix sep s = true.
Proof.
  revert s. induction sep as [|c sep IH]; intros s.
  - intros _ _. apply prefix_empty.
  - destruct s as [|d s]; [simpl; lia|].
    rewrite string_app_cons. simpl.
    destruct (ascii_dec c d); [|intros [=]].
    intros H Hl. apply IH; [exact H|lia].
Qed.

(** An offset is an occurrence exactly when [substr] starts there. *)
Lemma elem_of_occurrences i s sep :
  i ∈ occurrences s sep ↔
  (i ≤ String.length s)%nat ∧ String.prefix sep (string_drop i s) = true.
Proof.
  revert i. induction s as [|c s IH]; intros i.
  - cbn [occurrences]. rewrite app_nil_r, string_drop_empty.
    destruct (String.prefix sep "") eqn:E.
    + rewrite list_elem_of_singleton. simpl.
      split; [intros ->; split; [lia|reflexivity]|].
      intros [H _]. lia.
    + rewrite elem_of_nil. split; [tauto|]. intros [_ H]. discriminate H.
  - cbn [occurrences]. rewrite elem_of_app, list_elem_of_fmap.
    destruct i as [|i]; cbn [string_drop String.length].
    + split.
      * intros [H|(j & Hj & _)]; [|discriminate Hj].
        destruct (String.prefix sep (String c s)) eqn:E.
        -- split; [lia|reflexivity].
        -- apply elem_of_nil in H. contradiction.
      * intros [_ H]. left. rewrite H. apply list_elem_of_singleton. reflexivity.
    + split.
      * intros [H|(j & Hj & Hin)].
        -- destruct (String.prefix sep (String c s)).
           ++ apply list_elem_of_singleton in H. discriminate H.
           ++ apply elem_of_nil in H. contradiction.
        -- injection Hj as ->. apply IH in Hin as [? ?]. split; [lia|assumption].
      * intros [Hl H]. right. exists i. split; [reflexivity|].
        apply IH. split; [lia|exact H].
Qed.

(** [Index] is the first occurrence. *)
Lemma Index_head s sep : Index s sep = head (occurrences s sep).
Proof.
  induction s as [|c s IH]; cbn [Index occurrences].
  - destruct (String.prefix sep ""); reflexivity.
  - destruct (String.prefix sep (String c s)); [reflexivity|].
    rewrite IH. simpl. destruct (occurrences s sep); reflexivity.
Qed.

Lemma Index_None s sep : Index s sep = None ↔ occurrences s sep = [].
Proof.
  rewrite Index_head. destruct (occurrences s sep); simpl; split; congruence.
Qed.

Lemma Index_Some_occurs s sep m : Index s sep = Some m → m ∈ occurrences s sep.
Proof.
  rewrite Index_head. destruct (occurrences s sep) as [|x l]; simpl; [discriminate|].
  intros [= ->]. apply elem_of_cons. left. reflexivity.
Qed.

Lemma Index_Some_bound s sep m :
  Index s sep = Some m → (m + String.length sep ≤ String.length s)%nat.
Proof.
  intros H. apply Index_Some_occurs, elem_of_occurrences in H as [Hl Hp].
  apply prefix_length in Hp. rewrite string_drop_length in Hp. lia.
Qed.

(** Text appended after [s] does not move the first occurrence in [s]. *)
Lemma Index_app s t sep m : Index s sep = Some m → Index (s +:+ t) sep = Some m.
Proof.
  revert m. induction s as [|c s IH]; intros m; cbn [Index].
  - destruct (String.prefix sep "") eqn:E; [|discriminate].
    intros [= <-]. apply prefix_of_empty in E as ->.
    rewrite string_app_nil. destruct t; reflexivity.
  - destruct (String.prefix sep (String c s)) eqn:E.
    + intros [= <-]. rewrite string_app_cons. cbn [Index].
      rewrite <- string_app_cons, (prefix_app_l _ _ _ E). reflexivity.
    + destruct (Index s sep) as [m'|] eqn:Em; [|discriminate].
      intros [= <-]. rewrite string_app_cons. cbn [Index].
      rewrite <- string_app_cons.
      destruct (String.prefix sep (String c s +:+ t)) eqn:E2.
      * apply prefix_app_inv in E2; [congruence|].
        apply Index_Some_bound in Em. simpl. lia.
      * rewrite (IH m' eq_refl). reflexivity.
Qed.

(** An occurrence in a suffix of [s] is an occurrence in [s]. *)
Lemma occurrences_after s sep j n :
  (n ≤ String.length s)%nat →
  j ∈ occurrences (string_drop n s) sep → (n + j)%nat ∈ occurrences s sep.
Proof.
  intros Hn. rewrite !elem_of_occurrences, string_drop_length, string_drop_drop.
  intros [Hj Hp]. split; [lia|exact Hp].
Qed.

(** One occurrence found and none after it: [SplitAfter] gives the two
    tokens around the cut. *)
Lemma SplitAfter_once s sep m :
  sep ≠ "" →
  Index s sep = Some m →
  Index (string_drop (m + String.length sep) s) sep = None →
  SplitAfter s sep =
    [string_take (m + String.length sep) s; string_drop (m + String.length sep) s].
Proof.
  intros Hsep Hm Hrest. unfold SplitAfter, genSplit, Count.
  rewrite (eqb_empty_false _ Hsep).
  assert (Hlen : String.length s ≠ 0%nat).
  { apply Index_Some_bound in Hm. destruct sep; [contradiction|simpl in Hm; lia]. }
  destruct (String.length s) as [|f] eqn:El; [contradiction|].
  cbn [Count_from]. rewrite Hm, Hrest. cbn [genSplit_loop]. rewrite Hm.
  reflexivity.
Qed.

(** Fuel beyond the length of [s] does not change the count. *)
Lemma Count_from_fuel s sep fuel fuel' :
  sep ≠ "" →
  (String.length s < fuel)%nat → (String.length s < fuel')%nat →
  Count_from fuel s sep = Count_from fuel' s sep.
Proof.
  intros Hsep. revert s fuel'.
  induction fuel as [|fuel IH]; intros s fuel' H1 H2; [lia|].
  destruct fuel' as [|fuel']; [lia|]. simpl.
  destruct (Index s sep) as [i|] eqn:Ei; [|reflexivity].
  f_equal. apply Index_Some_bound in Ei.
  assert (0 < String.length sep)%nat by (destruct sep; [contradiction|simpl; lia]).
  apply IH; rewrite string_drop_length; lia.
Qed.

(** [Index] is the least occurrence. *)
Lemma Index_least s sep m i :
  Index s sep = Some m → i ∈ occurrences s sep → (m ≤ i)%nat.
Proof.
  revert m i. induction s as [|c s IH]; intros m i; cbn [Index occurrences].
  - destruct (String.prefix sep ""); [intros [= <-] _; lia|intros [=]].
  - destruct (String.prefix sep (String c s)); [intros [= <-] _; lia|].
    destruct (Index s sep) as [m'|] eqn:Em; [|intros [=]].
    intros [= <-]. simpl. rewrite list_elem_of_fmap. intros (j & -> & Hj).
    specialize (IH m' j eq_refl Hj). lia.
Qed.

(** The loop of [genSplit] gives back [s] alone or at least two tokens. *)
Lemma genSplit_loop_shape k s sep n :
  genSplit_loop k s sep n = [s]
  ∨ ∃ t t' l, genSplit_loop k s sep n = t :: t' :: l.
Proof.
  destruct k as [|k]; simpl; [left; reflexivity|].
  destruct (Index s sep) as [m|]; [|left; reflexivity].
  right. destruct k as [|k]; simpl; [eauto|].
  destruct (Index (string_drop _ s) sep); eauto.
Qed.

End Strings.

Example SplitAfter_two : SplitAfter "alias/SPIRE_SERVER_KEY/k1" defaultKeyPrefix
                         = ["alias/SPIRE_SERVER_KEY/"; "k1"].
Proof. reflexivity. Qed.

Example SplitAfter_none : SplitAfter "alias/other" defaultKeyPrefix = ["alias/other"].
Proof. reflexivity. Qed.

Example SplitAfter_many : SplitAfter "a,b,c" "," = ["a,"; "b,"; "c"].
Proof. reflexivity. Qed.

Example SplitAfter_empty_sep : SplitAfter "héllo" "" = ["h"; "é"; "l"; "l"; "o"].
Proof. reflexivity. Qed.


(* ===================================================================== *)
(** ** Alias codec                                                       *)
(* ===================================================================== *)

Section Codec.
Context {K : Type} `{!kmsClient K}.

(** Decoding an alias in which the prefix is found once, at offset [m],
    with nothing to find after it. *)
Lemma spireKeyIDFromAlias_cut (p : Plugin K) (alias : string) (m : nat) :
  keyPrefix p ≠ "" →
  Index alias (keyPrefix p) = Some m →
  Index (string_drop (m + String.length (keyPrefix p)) alias) (keyPrefix p) = None →
  spireKeyIDFromAlias p alias
  = Ok (string_drop (m + String.length (keyPrefix p)) alias).
Proof.
  intros Hne Hm Hrest. unfold spireKeyIDFromAlias.
  rewrite (SplitAfter_once _ _ _ Hne Hm Hrest). reflexivity.
Qed.

Lemma spireKeyIDFromAlias_once (p : Plugin K) (alias : string) (m : nat) :
  keyPrefix p ≠ "" →
  occurrences alias (keyPrefix p) = [m] →
  spireKeyIDFromAlias p alias
  = Ok (string_drop (m + String.length (keyPrefix p)) alias).
Proof.
  intros Hne Hocc.
  assert (Hm : Index alias (keyPrefix p) = Some m)
    by (rewrite Index_head, Hocc; reflexivity).
  apply spireKeyIDFromAlias_cut; [exact Hne|exact Hm|].
  destruct (Index (string_drop _ alias) (keyPrefix p)) as [j|] eqn:Ej; [|reflexivity].
  exfalso. apply Index_Some_occurs in Ej.
  apply occurrences_after in Ej; [|apply (Index_Some_bound _ _ _ Hm)].
  rewrite Hocc in Ej. apply list_elem_of_singleton in Ej.
  destruct (keyPrefix p); [contradiction|simpl in Ej; lia].
Qed.

(** C6, a prefix on which the round trip breaks: with the key prefix
    "alias/" the alias of "k1" holds the prefix twice and is not decoded,
    and with the key prefix "s/s/" the alias of "k1" decodes to "s/k1";
    in both, the key id does not contain the prefix. *)
Lemma alias_decoding_breaks :
  (¬ contains "k1" "alias/"
   ∧ aliasFromSpireKeyID (Scripted.prefixed "alias/") "k1" = "alias/alias/k1"
   ∧ spireKeyIDFromAlias (Scripted.prefixed "alias/")
       (aliasFromSpireKeyID (Scripted.prefixed "alias/") "k1")
     = Err (ErrAliasWithoutPrefix "alias/"))
  ∧ (¬ contains "k1" "s/s/"
     ∧ spireKeyIDFromAlias (Scripted.prefixed "s/s/")
         (aliasFromSpireKeyID (Scripted.prefixed "s/s/") "k1")
       = Ok "s/k1").
Proof.
  repeat split; try reflexivity; intros H; apply H; reflexivity.
Qed.

(** C6 (amended). For every key prefix that does not occur in
    "alias/" + prefix before offset 6 (the default prefix is one) and every
    key id that does not contain the prefix, the alias is the concatenation
    "alias/" + prefix + id and decoding it gives the id back. *)
Theorem alias_roundtrip (p : Plugin K) (id : string) :
  Index (aliasPrefix +:+ keyPrefix p) (keyPrefix p) = Some 6%nat →
  ¬ contains id (keyPrefix p) →
  aliasFromSpireKeyID p id = aliasPrefix +:+ keyPrefix p +:+ id
  ∧ spireKeyIDFromAlias p (aliasFromSpireKeyID p id) = Ok id.
Proof.
  intros Hfirst Hid. split; [reflexivity|].
  unfold aliasFromSpireKeyID.
  assert (Hne : keyPrefix p ≠ "").
  { intros E. apply Hid. unfold contains. rewrite E.
    destruct id; discriminate. }
  assert (Hnone : Index id (keyPrefix p) = None).
  { apply Index_None. unfold contains in Hid.
    destruct (occurrences id (keyPrefix p)); [reflexivity|].
    exfalso. apply Hid. discriminate. }
  assert (Hcut : string_drop (6 + String.length (keyPrefix p))
                   (aliasPrefix +:+ keyPrefix p +:+ id) = id).
  { rewrite <- string_app_assoc.
    replace (6 + String.length (keyPrefix p))%nat
      with (String.length (aliasPrefix +:+ keyPrefix p))
      by (rewrite string_app_length; reflexivity).
    apply string_drop_app. }
  rewrite <- Hcut at 2.
  apply spireKeyIDFromAlias_cut; [exact Hne| |rewrite Hcut; exact Hnone].
  rewrite <- string_app_assoc. apply Index_app. exact Hfirst.
Qed.

(** The condition on the prefix is the weakest one: when the round trip
    holds for a key id, the prefix first occurs in "alias/" + prefix at
    offset 6. *)
Lemma roundtrip_needs_first_occurrence (p : Plugin K) (id : string) :
  keyPrefix p ≠ "" →
  spireKeyIDFromAlias p (aliasFromSpireKeyID p id) = Ok id →
  Index (aliasPrefix +:+ keyPrefix p) (keyPrefix p) = Some 6%nat.
Proof.
  intros Hne Hrt.
  assert (Hocc : 6%nat ∈ occurrences (aliasPrefix +:+ keyPrefix p) (keyPrefix p)).
  { apply elem_of_occurrences. rewrite string_app_length. split; [simpl; lia|].
    change 6%nat with (String.length aliasPrefix). rewrite string_drop_app.
    destruct (keyPrefix p) as [|c t] eqn:E; [reflexivity|].
    rewrite <- (prefix_app (String c t) ""). f_equal.
    clear. induction (String c t) as [|d u IH]; [reflexivity|].
    rewrite string_app_cons, <- IH. reflexivity. }
  destruct (Index (aliasPrefix +:+ keyPrefix p) (keyPrefix p)) as [m|] eqn:Em.
  2:{ apply Index_None in Em. rewrite Em in Hocc. apply elem_of_nil in Hocc.
      contradiction. }
  pose proof (Index_least _ _ _ _ Em Hocc) as Hle.
  destruct (decide (m = 6%nat)) as [->|Hm]; [reflexivity|]. exfalso.
  pose proof (Index_app _ id _ _ Em) as Ea. rewrite string_app_assoc in Ea.
  unfold spireKeyIDFromAlias, aliasFromSpireKeyID, SplitAfter, genSplit, Count in Hrt.
  rewrite (eqb_empty_false _ Hne) in Hrt. cbn [Count_from] in Hrt.
  rewrite Ea in Hrt. cbn [genSplit_loop] in Hrt. rewrite Ea in Hrt.
  match type of Hrt with
  | context [genSplit_loop ?k ?s ?sep ?n] =>
      destruct (genSplit_loop_shape k s sep n) as [E|(t & t' & l & E)];
        rewrite E in Hrt; simpl in Hrt
  end.
  - injection Hrt as Hrt. apply (f_equal String.length) in Hrt.
    rewrite string_drop_length, !string_app_length in Hrt. simpl in Hrt. lia.
  - discriminate Hrt.
Qed.

End Codec.

Lemma alias_roundtrip_witness :
  aliasFromSpireKeyID (Scripted.prefixed defaultKeyPrefix) "x509-CA-A"
  = "alias/SPIRE_SERVER_KEY/x509-CA-A"
  ∧ spireKeyIDFromAlias (Scripted.prefixed defaultKeyPrefix)
      (aliasFromSpireKeyID (Scripted.prefixed defaultKeyPrefix) "x509-CA-A")
    = Ok "x509-CA-A".
Proof.
  refine (alias_roundtrip (Scripted.prefixed defaultKeyPrefix) "x509-CA-A" _ _).
  - reflexivity.
  - intros H. apply H. reflexivity.
Defined.

(* ===================================================================== *)
(** ** Remote calls: what they touch                                     *)
(* ===================================================================== *)

Section Frames.
Context {K : Type} `{!kmsClient K}.

Lemma remote_frame {I O} (op : K → I → (O + string) * K) tag input
    (w w' : World K) r :
  remote op tag input w = (r, w') →
  entries (plugin w') = entries (plugin w)
  ∧ keyPrefix (plugin w') = keyPrefix (plugin w)
  ∧ hooks_newClient (plugin w') = hooks_newClient (plugin w)
  ∧ goroutines w' = goroutines w.
Proof.
  unfold remote. destruct (client (plugin w)) as [k|].
  - destruct (op k input) as [a k']. intros [= <- <-]. simpl. auto.
  - intros [= <- <-]. auto.
Qed.

Lemma remote_logged {I O} (op : K → I → (O + string) * K) tag input
    (w w' : World K) a :
  remote op tag input w = (Ok a, w') → calls w' = (calls w ++ [tag input])%list.
Proof.
  unfold remote. destruct (client (plugin w)) as [k|]; [|intros [=]].
  destruct (op k input) as [a' k']. intros [= <- <-]. reflexivity.
Qed.

Lemma spireKeyIDFromAlias_ext (p p' : Plugin K) (alias : string) :
  keyPrefix p = keyPrefix p' →
  spireKeyIDFromAlias p alias = spireKeyIDFromAlias p' alias.
Proof. unfold spireKeyIDFromAlias. intros ->. reflexivity. Qed.

Lemma spireKeyIDFromAlias_no_panic (p : Plugin K) (alias : string) :
  spireKeyIDFromAlias p alias ≠ Panic.
Proof.
  unfold spireKeyIDFromAlias.
  destruct (SplitAfter alias (keyPrefix p)) as [|a [|b [|c l]]]; simpl; discriminate.
Qed.

(** *** Entries carried under the cache do not change a run *)

Lemma commutes_ret {A} (a : A) : commutes (K:=K) (ret a : M K A).
Proof. intros m w. reflexivity. Qed.

Lemma commutes_throw {A} (e : error) : commutes (K:=K) (@throw K A e).
Proof. intros m w. reflexivity. Qed.

Lemma commutes_panic {A} : commutes (K:=K) (@panic K A).
Proof. intros m w. reflexivity. Qed.

Lemma commutes_bind {A B} (f : M K A) (g : A → M K B) :
  commutes f → (∀ a, commutes (g a)) → commutes (bind f g).
Proof.
  intros Hf Hg m w. unfold bind. rewrite Hf.
  destruct (f w) as [[a|e|] w1]; simpl; [apply Hg|reflexivity|reflexivity].
Qed.

Lemma commutes_remote {I O} (op : K → I → (O + string) * K) tag input :
  commutes (K:=K) (remote op tag input).
Proof.
  intros m w. unfold remote. simpl.
  destruct (client (plugin w)) as [k|]; [|reflexivity].
  destruct (op k input) as [a k']. reflexivity.
Qed.

Lemma commutes_setEntry (spireKeyID : string) (e : keyEntry) :
  commutes (K:=K) (setEntry spireKeyID e).
Proof.
  intros m w. unfold setEntry, throw.
  repeat match goal with
  | |- context [if ?b then _ else _] => destruct b; [reflexivity|]
  | |- context [match PublicKey e with _ => _ end] =>
      destruct (PublicKey e); [|reflexivity]
  end.
  unfold carry_result, carry, with_plugin, set_entries. simpl.
  rewrite insert_union_l. reflexivity.
Qed.

Lemma commutes_buildKeyEntry (alias awsKeyID : string) :
  commutes (K:=K) (buildKeyEntry alias awsKeyID).
Proof.
  unfold buildKeyEntry. apply commutes_bind; [apply commutes_remote|].
  intros [resp|msg]; [|apply commutes_throw].
  destruct (dko_KeyMetadata resp) as [md|]; [|apply commutes_panic].
  destruct (km_Enabled md); simpl; [|apply commutes_ret].
  intros m w.
  rewrite (spireKeyIDFromAlias_ext (plugin (carry m w)) (plugin w)) by reflexivity.
  destruct (spireKeyIDFromAlias (plugin w) alias); try reflexivity.
  destruct (keyTypeFromKeySpec (km_CustomerMasterKeySpec md)); try reflexivity.
  apply commutes_bind; [apply commutes_remote|].
  intros [pub|msg]; [apply commutes_ret|apply commutes_throw].
Qed.

Lemma commutes_processAlias (alias : AliasListEntry) : commutes (K:=K) (processAlias alias).
Proof.
  unfold processAlias.
  destruct (AliasName alias) as [aliasName|]; [|apply commutes_ret].
  destruct (TargetKeyId alias) as [targetKeyId|]; [|apply commutes_ret].
  intros m w. rewrite commutes_buildKeyEntry.
  destruct (buildKeyEntry aliasName targetKeyId w) as [[[e|]|e|] w1]; simpl;
    try reflexivity.
  destruct (PublicKey e) as [pk|]; [apply commutes_setEntry|reflexivity].
Qed.

Lemma commutes_rangeAliases (aliases : list AliasListEntry) :
  commutes (K:=K) (rangeAliases aliases).
Proof.
  induction aliases as [|a l IH]; simpl; [apply commutes_ret|].
  apply commutes_bind; [apply commutes_processAlias|intros _; exact IH].
Qed.

Lemma commutes_fetchAliasesPage (marker : option string) :
  commutes (K:=K) (fetchAliasesPage marker).
Proof.
  unfold fetchAliasesPage. apply commutes_bind; [apply commutes_remote|].
  intros [resp|msg]; [|apply commutes_throw].
  apply commutes_bind; [apply commutes_rangeAliases|intros _; apply commutes_ret].
Qed.

Lemma fetchAllPages_carry (fuel : nat) (marker : option string) m (w : World K) :
  fetchAllPages fuel marker (carry m w)
  = carry_result m <$> fetchAllPages fuel marker w.
Proof.
  revert marker w. induction fuel as [|fuel IH]; intros marker w; simpl; [reflexivity|].
  rewrite commutes_fetchAliasesPage.
  destruct (fetchAliasesPage marker w) as [[[mk|]|e|] w1]; simpl; try reflexivity.
  apply IH.
Qed.

(** More fuel does not change a loop that has ended. *)
Lemma fetchAllPages_fuel (fuel fuel' : nat) (marker : option string) (w : World K) r :
  fetchAllPages fuel marker w = Some r → (fuel ≤ fuel')%nat →
  fetchAllPages fuel' marker w = Some r.
Proof.
  revert fuel' marker w. induction fuel as [|fuel IH]; intros fuel' marker w;
    simpl; [intros [=]|].
  intros H Hle. destruct fuel' as [|fuel']; [lia|]. simpl.
  destruct (fetchAliasesPage marker w) as [[[mk|]|e|] w1]; try exact H.
  apply IH; [exact H|lia].
Qed.

End Frames.

(* ===================================================================== *)
(** ** Reconciliation                                                    *)
(* ===================================================================== *)

Section Reconcile.
Context {K : Type} `{!kmsClient K}.

Lemma describes_frame (w w1 : World K) alias md :
  describes w alias md w1 →
  entries (plugin w1) = entries (plugin w)
  ∧ keyPrefix (plugin w1) = keyPrefix (plugin w).
Proof.
  intros (resp & Hcall & _). apply remote_frame in Hcall. tauto.
Qed.

Lemma buildKeyEntry_skip (alias target : string) (w w1 : World K) :
  skippable w alias w1 → buildKeyEntry alias target w = (Ok None, w1).
Proof.
  intros (md & Hd & Hwhy). pose proof (describes_frame _ _ _ _ Hd) as [_ Hp].
  destruct Hd as (resp & Hcall & Hmd).
  unfold buildKeyEntry, bind. rewrite Hcall, Hmd.
  destruct (km_Enabled md) eqn:En; simpl; [|reflexivity].
  rewrite (spireKeyIDFromAlias_ext (plugin w1) (plugin w) alias Hp).
  destruct Hwhy as [Hdis|[[e He]|[e He]]]; [discriminate|rewrite He; reflexivity|].
  destruct (spireKeyIDFromAlias (plugin w) alias) as [id|e'|] eqn:Es;
    [rewrite He; reflexivity|reflexivity|].
  exfalso. exact (spireKeyIDFromAlias_no_panic _ _ Es).
Qed.

Lemma buildKeyEntry_fatal (alias target : string) (w w' : World K) e :
  fatal w alias e w' → buildKeyEntry alias target w = (Err e, w').
Proof.
  intros [(msg & Hcall & ->)|(md & w1 & id & kt & msg & Hd & En & Hid & Hkt & Hcall & ->)];
    unfold buildKeyEntry, bind.
  - rewrite Hcall. reflexivity.
  - pose proof (describes_frame _ _ _ _ Hd) as [_ Hp].
    destruct Hd as (resp & Hcall1 & Hmd).
    rewrite Hcall1, Hmd, En. simpl.
    rewrite (spireKeyIDFromAlias_ext (plugin w1) (plugin w) alias Hp), Hid, Hkt.
    unfold bind. rewrite Hcall. reflexivity.
Qed.

(** A listed alias that is built into an entry. *)
Lemma buildKeyEntry_built (alias target : string) (w w1 w2 : World K)
    md id kt pub :
  describes w alias md w1 →
  km_Enabled md = true →
  spireKeyIDFromAlias (plugin w) alias = Ok id →
  keyTypeFromKeySpec (km_CustomerMasterKeySpec md) = Ok kt →
  remote GetPublicKey_ CallGetPublicKey {| gpi_KeyId := Some alias |} w1
  = (Ok (inl pub), w2) →
  buildKeyEntry alias target w
  = (Ok (Some {| KMSKeyID := target; Alias := alias;
                 PublicKey := Some {| Id := id; Type_ := kt;
                                      PkixData := gpo_PublicKey pub |} |}), w2).
Proof.
  intros Hd En Hid Hkt Hcall.
  pose proof (describes_frame _ _ _ _ Hd) as [_ Hp].
  destruct Hd as (resp & Hcall1 & Hmd).
  unfold buildKeyEntry, bind. rewrite Hcall1, Hmd, En. simpl.
  rewrite (spireKeyIDFromAlias_ext (plugin w1) (plugin w) alias Hp), Hid, Hkt.
  unfold bind. rewrite Hcall. reflexivity.
Qed.

Lemma rangeAliases_app (pre l : list AliasListEntry) (w w1 : World K) :
  rangeAliases pre w = (Ok tt, w1) →
  rangeAliases (pre ++ l) w = rangeAliases l w1.
Proof.
  revert w. induction pre as [|a pre IH]; intros w; simpl.
  - intros [= <-]. reflexivity.
  - unfold bind. destruct (processAlias a w) as [[[]|e|] w0]; [apply IH| |]; intros [=].
Qed.

Lemma rangeAliases_skip (alias target : string) rest (w w1 : World K) :
  skippable w alias w1 →
  rangeAliases (listed alias target :: rest) w = rangeAliases rest w1.
Proof.
  intros Hs. simpl. unfold bind, processAlias. simpl.
  rewrite (buildKeyEntry_skip _ target _ _ Hs). reflexivity.
Qed.

Lemma rangeAliases_fatal (alias target : string) rest (w w' : World K) e :
  fatal w alias e w' →
  rangeAliases (listed alias target :: rest) w = (Err (ErrProcessKey e), w').
Proof.
  intros Hf. simpl. unfold bind, processAlias. simpl.
  rewrite (buildKeyEntry_fatal _ target _ _ _ Hf). reflexivity.
Qed.

(** An error on a listed alias ends the listing loop with that error. *)
Lemma reaches_abort marker (w0 w w' : World K) item rest e :
  reaches marker w0 item rest w →
  rangeAliases (item :: rest) w = (Err e, w') →
  ∃ n, ∀ fuel, (n ≤ fuel)%nat → fetchAllPages fuel marker w0 = Some (Err e, w').
Proof.
  intros Hr Hfail. induction Hr as [marker w0 resp w1 pre item rest w Hl Hsplit Hpre
                                   |marker w0 m w0' item rest w Hpage Hr IH].
  - exists 1%nat. intros fuel Hle.
    apply (fetchAllPages_fuel 1); [|exact Hle].
    simpl. unfold fetchAliasesPage, bind. rewrite Hl, Hsplit.
    rewrite (rangeAliases_app _ _ _ _ Hpre), Hfail. reflexivity.
  - destruct (IH Hfail) as [n Hn]. exists (S n). intros fuel Hle.
    destruct fuel as [|fuel]; [lia|]. simpl. rewrite Hpage. apply Hn. lia.
Qed.

Variable hcl_Decode : string → Config + string.

Lemma Configure_runs_loop (fuel : nat) (req : ConfigureRequest) config (w : World K) :
  validateConfig hcl_Decode (Configuration req) = Ok config →
  (hooks_newClient (plugin w) config).2 = None →
  Configure hcl_Decode fuel req w = fetchAllPages fuel None (configured_for config w).
Proof.
  intros Hv Hc. unfold Configure, configured_for. rewrite Hv. simpl.
  simpl in Hc. destruct (hooks_newClient (plugin w) config) as [c err].
  simpl in Hc. subst err. reflexivity.
Qed.

(** C2. In the reconciliation run by [Configure], at every listed alias
    with a name and a target: when the key is reported disabled, or the
    alias does not decode under the configured prefix, or the key spec is
    not supported, no entry is built, the cache is as before and the loop
    goes on with the rest of the page; when [DescribeKey] fails, or
    [GetPublicKey] fails, [Configure] ends with that error. *)
Theorem reconcile_skips_and_aborts (req : ConfigureRequest) (config : Config)
    (w_init w : World K) (alias target : string) (rest : list AliasListEntry) :
  validateConfig hcl_Decode (Configuration req) = Ok config →
  (hooks_newClient (plugin w_init) config).2 = None →
  reaches None (configured_for config w_init) (listed alias target) rest w →
  (∀ w1, skippable w alias w1 →
         buildKeyEntry alias target w = (Ok None, w1)
         ∧ processAlias (listed alias target) w = (Ok tt, w1)
         ∧ entries (plugin w1) = entries (plugin w)
         ∧ rangeAliases (listed alias target :: rest) w = rangeAliases rest w1)
  ∧ (∀ e w', fatal w alias e w' →
         ∃ n, ∀ fuel, (n ≤ fuel)%nat →
              Configure hcl_Decode fuel req w_init
              = Some (Err (ErrProcessKey e), w')).
Proof.
  intros Hv Hc Hr. split.
  - intros w1 Hs. split; [apply buildKeyEntry_skip, Hs|].
    split.
    { unfold processAlias. simpl. rewrite (buildKeyEntry_skip _ target _ _ Hs).
      reflexivity. }
    split; [|apply rangeAliases_skip, Hs].
    destruct Hs as (md & Hd & _). apply (describes_frame _ _ _ _ Hd).
  - intros e w' Hf.
    destruct (reaches_abort _ _ _ _ _ _ _ Hr (rangeAliases_fatal _ target rest _ _ _ Hf))
      as [n Hn].
    exists n. intros fuel Hle.
    rewrite (Configure_runs_loop fuel req config w_init Hv Hc). apply Hn, Hle.
Qed.

End Reconcile.

(** A two-page listing with one alias under the prefix, one under another
    prefix and one disabled key leaves one entry in the cache. *)
Example Configure_two_pages :
  ∃ w', Configure Scripted.decode 2 Scripted.region_request
          (Scripted.configured ∅ Scripted.two_page_script) = Some (Ok tt, w')
        ∧ map_to_list (entries (plugin w'))
          = [("a", {| KMSKeyID := "id-a"; Alias := "alias/SPIRE_SERVER_KEY/a";
                      PublicKey := Some {| Id := "a"; Type_ := KeyType_RSA_2048;
                                           PkixData := Scripted.pkix |} |})]
        ∧ length (calls w') = 6%nat.
Proof. eexists. split; [reflexivity|]. split; vm_compute; reflexivity. Qed.

(** One page is not the whole listing: with fuel for one page only, the
    loop has not ended. *)
Example Configure_two_pages_short :
  Configure Scripted.decode 1 Scripted.region_request
    (Scripted.configured ∅ Scripted.two_page_script) = None.
Proof. reflexivity. Qed.

(** An unsupported key spec is passed over; a failing [GetPublicKey] on the
    next alias ends [Configure]. *)
Example Configure_unsupported_then_failing :
  ∃ w', Configure Scripted.decode 1 Scripted.region_request
          (Scripted.configured ∅ Scripted.unsupported_then_failing_script)
        = Some (Err (ErrProcessKey (ErrGetPublicKey "unavailable")), w')
        ∧ entries (plugin w') = ∅
        ∧ length (calls w') = 4%nat.
Proof. eexists. split; [reflexivity|]. split; reflexivity. Qed.

Lemma reconcile_skips_and_aborts_witness :
  (buildKeyEntry "alias/SPIRE_SERVER_KEY/a" "id-a"
     (Scripted.first_page_listed Scripted.disabled_script)
   = (Ok None,
      (remote DescribeKey CallDescribeKey
         {| dki_KeyId := Some "alias/SPIRE_SERVER_KEY/a" |}
         (Scripted.first_page_listed Scripted.disabled_script)).2)
   ∧ processAlias (listed "alias/SPIRE_SERVER_KEY/a" "id-a")
       (Scripted.first_page_listed Scripted.disabled_script)
     = (Ok tt,
        (remote DescribeKey CallDescribeKey
           {| dki_KeyId := Some "alias/SPIRE_SERVER_KEY/a" |}
           (Scripted.first_page_listed Scripted.disabled_script)).2)
   ∧ entries (plugin (remote DescribeKey CallDescribeKey
                        {| dki_KeyId := Some "alias/SPIRE_SERVER_KEY/a" |}
                        (Scripted.first_page_listed Scripted.disabled_script)).2)
     = entries (plugin (Scripted.first_page_listed Scripted.disabled_script))
   ∧ rangeAliases [listed "alias/SPIRE_SERVER_KEY/a" "id-a";
                   listed "alias/SPIRE_SERVER_KEY/b" "id-b"]
       (Scripted.first_page_listed Scripted.disabled_script)
     = rangeAliases [listed "alias/SPIRE_SERVER_KEY/b" "id-b"]
         (remote DescribeKey CallDescribeKey
            {| dki_KeyId := Some "alias/SPIRE_SERVER_KEY/a" |}
            (Scripted.first_page_listed Scripted.disabled_script)).2)
  ∧ (∃ n, ∀ fuel, (n ≤ fuel)%nat →
       Configure Scripted.decode fuel Scripted.region_request
         (Scripted.configured ∅ Scripted.failing_script)
       = Some (Err (ErrProcessKey (ErrDescribeKey "throttled")),
               (remote DescribeKey CallDescribeKey
                  {| dki_KeyId := Some "alias/SPIRE_SERVER_KEY/a" |}
                  (Scripted.first_page_listed Scripted.failing_script)).2)).
Proof.
  split.
  - refine (proj1 (reconcile_skips_and_aborts Scripted.decode
                     Scripted.region_request Scripted.region_config
                     (Scripted.configured ∅ Scripted.disabled_script)
                     (Scripted.first_page_listed Scripted.disabled_script)
                     "alias/SPIRE_SERVER_KEY/a" "id-a"
                     [listed "alias/SPIRE_SERVER_KEY/b" "id-b"] _ _ _) _ _).
    + reflexivity.
    + reflexivity.
    + eapply (reaches_on_page _ _ _ _ []); reflexivity.
    + eexists. split; [eexists; split; reflexivity|]. left. reflexivity.
  - refine (proj2 (reconcile_skips_and_aborts Scripted.decode
                     Scripted.region_request Scripted.region_config
                     (Scripted.configured ∅ Scripted.failing_script)
                     (Scripted.first_page_listed Scripted.failing_script)
                     "alias/SPIRE_SERVER_KEY/a" "id-a" [] _ _ _) _ _ _).
    + reflexivity.
    + reflexivity.
    + eapply (reaches_on_page _ _ _ _ []); reflexivity.
    + left. eexists. split; reflexivity.
Defined.

Section ForeignAlias.
Context {K : Type} `{!kmsClient K}.

(** C10. Decoding does not ask for the shape "alias/" + prefix + id: an
    alias that holds the (non-empty) configured prefix exactly once, at any
    offset [m], decodes to what follows the prefix.  In reconciliation such
    an alias, when its key is enabled and of a supported spec, is built
    into an entry under that suffix and handed to [setEntry]. *)
Theorem foreign_alias_decodes (w : World K) (alias : string) (m : nat) :
  keyPrefix (plugin w) ≠ "" →
  occurrences alias (keyPrefix (plugin w)) = [m] →
  let suffix := string_drop (m + String.length (keyPrefix (plugin w))) alias in
  spireKeyIDFromAlias (plugin w) alias = Ok suffix
  ∧ ∀ target md kt pub w1 w2,
      describes w alias md w1 →
      km_Enabled md = true →
      keyTypeFromKeySpec (km_CustomerMasterKeySpec md) = Ok kt →
      remote GetPublicKey_ CallGetPublicKey {| gpi_KeyId := Some alias |} w1
      = (Ok (inl pub), w2) →
      let built := {| KMSKeyID := target; Alias := alias;
                      PublicKey := Some {| Id := suffix; Type_ := kt;
                                           PkixData := gpo_PublicKey pub |} |} in
      buildKeyEntry alias target w = (Ok (Some built), w2)
      ∧ processAlias (listed alias target) w = setEntry suffix built w2.
Proof.
  intros Hne Hocc suffix.
  pose proof (spireKeyIDFromAlias_once (plugin w) alias m Hne Hocc) as Hdec.
  split; [exact Hdec|].
  intros target md kt pub w1 w2 Hd En Hkt Hcall built.
  pose proof (buildKeyEntry_built alias target w w1 w2 md suffix kt pub
                Hd En Hdec Hkt Hcall) as Hb.
  split; [exact Hb|].
  unfold processAlias. simpl. rewrite Hb. reflexivity.
Qed.

End ForeignAlias.

Lemma foreign_alias_decodes_witness :
  spireKeyIDFromAlias (plugin (Scripted.first_page_listed Scripted.foreign_script))
    "other/SPIRE_SERVER_KEY/x" = Ok "x"
  ∧ ∃ w2, processAlias (listed "other/SPIRE_SERVER_KEY/x" "id-x")
            (Scripted.first_page_listed Scripted.foreign_script) = (Ok tt, w2)
          ∧ entries (plugin w2) !! "x"
            = Some {| KMSKeyID := "id-x"; Alias := "other/SPIRE_SERVER_KEY/x";
                      PublicKey := Some {| Id := "x"; Type_ := KeyType_EC_P256;
                                           PkixData := Scripted.pkix |} |}.
Proof.
  destruct (foreign_alias_decodes
              (Scripted.first_page_listed Scripted.foreign_script)
              "other/SPIRE_SERVER_KEY/x" 6%nat)
    as [Hdec Hbuilt].
  - discriminate.
  - reflexivity.
  - split; [exact Hdec|].
    destruct (Hbuilt "id-x"
                {| km_KeyId := Some "id-x"; km_Enabled := true;
                   km_CustomerMasterKeySpec := CustomerMasterKeySpecEccNistP256 |}
                KeyType_EC_P256
                {| gpo_KeyId := Some "id-x"; gpo_PublicKey := Scripted.pkix |}
                (remote DescribeKey CallDescribeKey
                   {| dki_KeyId := Some "other/SPIRE_SERVER_KEY/x" |}
                   (Scripted.first_page_listed Scripted.foreign_script)).2
                (remote GetPublicKey_ CallGetPublicKey
                   {| gpi_KeyId := Some "other/SPIRE_SERVER_KEY/x" |}
                   (remote DescribeKey CallDescribeKey
                      {| dki_KeyId := Some "other/SPIRE_SERVER_KEY/x" |}
                      (Scripted.first_page_listed Scripted.foreign_script)).2).2)
      as [_ Hproc].
    + eexists. split; reflexivity.
    + reflexivity.
    + reflexivity.
    + reflexivity.
    + eexists. split; [rewrite Hproc; reflexivity|]. vm_compute. reflexivity.
Defined.

(* ===================================================================== *)
(** ** Configure and the cache it starts from                            *)
(* ===================================================================== *)

Section Configure.
Context {K : Type} `{!kmsClient K}.

Lemma carry_emptied (w : World K) : carry (entries (plugin w)) (emptied w) = w.
Proof.
  destruct w as [[m c kp h] cs gs]. unfold carry, emptied, with_plugin, set_entries.
  simpl. rewrite (left_id_L ∅ (∪)). reflexivity.
Qed.

Variable hcl_Decode : string → Config + string.

(** A validated configuration has a region and a key prefix. *)
Lemma validateConfig_prefix (c : string) (config : Config) :
  validateConfig hcl_Decode c = Ok config →
  KeyPrefix config ≠ "" ∧ Region config ≠ "".
Proof.
  unfold validateConfig. destruct (hcl_Decode c) as [cfg|e]; [|intros [=]].
  destruct (String.eqb_spec (Region cfg) "") as [|Hr]; [intros [=]|].
  destruct (String.eqb_spec (KeyPrefix cfg) "") as [|Hp]; intros [= <-]; simpl;
    split; try assumption.
  discriminate.
Qed.

Lemma Configure_carry (fuel : nat) (req : ConfigureRequest) m (w : World K) :
  Configure hcl_Decode fuel req (carry m w)
  = carry_result m <$> Configure hcl_Decode fuel req w.
Proof.
  unfold Configure.
  destruct (validateConfig hcl_Decode (Configuration req)) as [config|e|];
    try reflexivity.
  simpl. destruct (hooks_newClient (plugin w) config) as [c [e|]]; [reflexivity|].
  apply (fetchAllPages_carry fuel None m
           (with_plugin (set_client c) (with_plugin (set_keyPrefix (KeyPrefix config)) w))).
Qed.

(** More fuel does not change a [Configure] call that has returned. *)
Lemma Configure_fuel (fuel fuel' : nat) (req : ConfigureRequest) (w : World K) r :
  Configure hcl_Decode fuel req w = Some r → (fuel ≤ fuel')%nat →
  Configure hcl_Decode fuel' req w = Some r.
Proof.
  unfold Configure.
  destruct (validateConfig hcl_Decode (Configuration req)) as [config|e|];
    try (intros; assumption).
  destruct (hooks_newClient _ config) as [c [e|]]; [intros; assumption|].
  apply fetchAllPages_fuel.
Qed.

(** C9 (amended). The cache is created empty when the plugin is
    constructed, not by [Configure].  A [Configure] call that succeeds
    leaves in the cache the entries its reconciliation pass admits (those
    the same call, with the same remote calls and answers, builds from an
    empty cache), over the entries that were there before the call: an
    earlier entry stays unless the pass admits an entry under its key id.
    From an empty cache, the cache afterwards holds the admitted entries
    and no other. *)
Theorem Configure_keeps_prior_entries
    (newClient : Config → option K * option string)
    (fuel : nat) (req : ConfigureRequest) (w w' : World K) :
  entries (newPlugin newClient) = ∅
  ∧ (Configure hcl_Decode fuel req w = Some (Ok tt, w') →
     ∃ admitted,
       Configure hcl_Decode fuel req (emptied w) = Some (Ok tt, admitted)
       ∧ w' = carry (entries (plugin w)) admitted
       ∧ entries (plugin w') = entries (plugin admitted) ∪ entries (plugin w)
       ∧ (∀ k, entries (plugin w') !! k
               = match entries (plugin admitted) !! k with
                 | Some e => Some e
                 | None => entries (plugin w) !! k
                 end)
       ∧ (entries (plugin w) = ∅ → entries (plugin w') = entries (plugin admitted))).
Proof.
  split; [reflexivity|]. intros Hrun.
  rewrite <- (carry_emptied w), Configure_carry in Hrun.
  destruct (Configure hcl_Decode fuel req (emptied w)) as [[r admitted]|] eqn:E;
    [|discriminate Hrun].
  injection Hrun as -> <-. exists admitted. split; [reflexivity|].
  split; [reflexivity|].
  assert (Hu : entries (plugin (carry (entries (plugin w)) admitted))
               = entries (plugin admitted) ∪ entries (plugin w)) by reflexivity.
  split; [exact Hu|]. split.
  - intros k. rewrite Hu, lookup_union.
    destruct (entries (plugin admitted) !! k), (entries (plugin w) !! k); reflexivity.
  - intros Hempty. rewrite Hu, Hempty. apply (right_id_L ∅ (∪)).
Qed.

End Configure.

(** C9, an entry carried over: a plugin that holds the entry "old" is
    configured against a listing with no alias.  [Configure] succeeds, its
    pass admits nothing (from an empty cache it leaves an empty cache), and
    "old" is still in the cache. *)
Lemma Configure_carries_over :
  ∃ w' admitted,
    Configure Scripted.decode 1 Scripted.region_request Scripted.holding_old
    = Some (Ok tt, w')
    ∧ Configure Scripted.decode 1 Scripted.region_request (emptied Scripted.holding_old)
      = Some (Ok tt, admitted)
    ∧ entries (plugin admitted) = ∅
    ∧ calls w' = [CallListAliases {| lai_Marker := None |}]
    ∧ entries (plugin w') !! "old" = Some (Scripted.an_entry "old" "id-0")
    ∧ entries (plugin w') ≠ entries (plugin admitted).
Proof.
  eexists. eexists. split; [reflexivity|]. split; [reflexivity|].
  split; [reflexivity|]. split; [reflexivity|].
  split; [vm_compute; reflexivity|].
  intros H. apply (f_equal (λ m : gmap string keyEntry, m !! "old")) in H.
  vm_compute in H. discriminate H.
Qed.

Lemma Configure_keeps_prior_entries_witness :
  ∃ w' admitted,
    Configure Scripted.decode 1 Scripted.region_request Scripted.holding_old
    = Some (Ok tt, w')
    ∧ Configure Scripted.decode 1 Scripted.region_request (emptied Scripted.holding_old)
      = Some (Ok tt, admitted)
    ∧ entries (plugin w')
      = entries (plugin admitted) ∪ entries (plugin Scripted.holding_old).
Proof.
  pose (w' := from_option snd Scripted.holding_old
                (Configure Scripted.decode 1 Scripted.region_request
                   Scripted.holding_old)).
  assert (Hrun : Configure Scripted.decode 1 Scripted.region_request
                   Scripted.holding_old = Some (Ok tt, w'))
    by reflexivity.
  destruct (proj2 (Configure_keeps_prior_entries Scripted.decode
                     (λ _, (None, None)) 1 Scripted.region_request
                     Scripted.holding_old w') Hrun)
    as (admitted & Hadm & _ & Hu & _).
  exists w', admitted. split; [exact Hrun|]. split; [exact Hadm|exact Hu].
Defined.

(* ===================================================================== *)
(** ** Key generation and rotation                                       *)
(* ===================================================================== *)

Section Generate.
Context {K : Type} `{!kmsClient K}.

Lemma setEntry_Ok_inv (spireKeyID : string) (e : keyEntry) (w w' : World K) :
  setEntry spireKeyID e w = (Ok tt, w') →
  w' = with_plugin (λ p, set_entries (<[spireKeyID := e]> (entries p)) p) w.
Proof.
  unfold setEntry, throw.
  repeat match goal with
  | |- context [if ?b then _ else _] => destruct b; [intros [=]|]
  | |- context [match PublicKey e with _ => _ end] =>
      destruct (PublicKey e); [|intros [=]]
  end.
  intros [= <-]. reflexivity.
Qed.

Lemma createKey_Ok_inv (spireKeyID : string) (keyType : KeyType)
    (w w' : World K) (e : keyEntry) :
  createKey spireKeyID keyType w = (Ok e, w') →
  ∃ pub, creates w spireKeyID keyType pub w'
         ∧ gpo_KeyId pub = Some (KMSKeyID e)
         ∧ Alias e = aliasFromSpireKeyID (plugin w) spireKeyID
         ∧ PublicKey e = Some {| Id := spireKeyID; Type_ := keyType;
                                 PkixData := gpo_PublicKey pub |}.
Proof.
  unfold createKey, creates.
  destruct (keySpecFromKeyType keyType) as [keySpec|err|]; try (intros [=]; fail).
  unfold bind.
  destruct (remote CreateKey CallCreateKey _ w) as [[[key|msg]|err|] wa] eqn:Hck;
    try (intros [=]; fail).
  destruct (cko_KeyMetadata key) as [md|] eqn:Hmd; [|intros [=]].
  destruct (remote GetPublicKey_ CallGetPublicKey _ wa) as [[[pub|msg]|err|] wb] eqn:Hgp;
    try (intros [=]; fail).
  destruct (gpo_KeyId pub) as [kmsKeyId|] eqn:Hid; [|intros [=]].
  intros [= <- <-]. exists pub.
  apply remote_frame in Hck as Hf1. apply remote_frame in Hgp as Hf2.
  split; [exists keySpec, key, md, wa; auto|].
  split; [exact Hid|]. split; [|reflexivity].
  simpl. unfold aliasFromSpireKeyID.
  destruct Hf1 as (_ & P1 & _). destruct Hf2 as (_ & P2 & _).
  rewrite P2, P1. reflexivity.
Qed.

Lemma createKey_frame (spireKeyID : string) (keyType : KeyType)
    (w w' : World K) r :
  createKey spireKeyID keyType w = (r, w') →
  entries (plugin w') = entries (plugin w)
  ∧ keyPrefix (plugin w') = keyPrefix (plugin w)
  ∧ goroutines w' = goroutines w.
Proof.
  unfold createKey.
  destruct (keySpecFromKeyType keyType) as [keySpec|err|];
    try (intros [= <- <-]; auto; fail).
  unfold bind.
  destruct (remote CreateKey CallCreateKey _ w) as [[[key|msg]|err|] wa] eqn:Hck;
    apply remote_frame in Hck as (E1 & P1 & _ & G1);
    try (intros [= <- <-]; auto; fail).
  destruct (cko_KeyMetadata key) as [md|]; [|intros [= <- <-]; auto; fail].
  destruct (remote GetPublicKey_ CallGetPublicKey _ wa) as [[[pub|msg]|err|] wb] eqn:Hgp;
    apply remote_frame in Hgp as (E2 & P2 & _ & G2);
    try (intros [= <- <-]; repeat split; congruence).
  destruct (gpo_KeyId pub); intros [= <- <-]; repeat split; congruence.
Qed.

Lemma createKey_Ok_type (spireKeyID : string) (keyType : KeyType)
    (w w' : World K) (e : keyEntry) :
  createKey spireKeyID keyType w = (Ok e, w') →
  keyType ≠ KeyType_UNSPECIFIED_KEY_TYPE.
Proof.
  intros H ->. unfold createKey in H. simpl in H. discriminate H.
Qed.

(** C3. In a [GenerateKey] call in which the key is created and the alias
    call that follows fails ([CreateAlias] when the cache has no entry for
    the key id, [UpdateAlias] when it has one), [GenerateKey] returns the
    alias error and the cache is the one from before the call; no deletion
    of a former key is scheduled. *)
Theorem GenerateKey_alias_failure (req : GenerateKeyRequest)
    (w w1 w2 : World K) (newEntry : keyEntry) (msg : string) :
  gkr_KeyId req ≠ "" →
  createKey (gkr_KeyId req) (gkr_KeyType req) w = (Ok newEntry, w1) →
  (entries (plugin w) !! gkr_KeyId req = None
   ∧ remote CreateAlias CallCreateAlias
       {| cai_AliasName := Some (Alias newEntry);
          cai_TargetKeyId := Some (KMSKeyID newEntry) |} w1
     = (Ok (inr msg), w2))
  ∨ (is_Some (entries (plugin w) !! gkr_KeyId req)
     ∧ remote UpdateAlias CallUpdateAlias
         {| uai_AliasName := Some (Alias newEntry);
            uai_TargetKeyId := Some (KMSKeyID newEntry) |} w1
       = (Ok (inr msg), w2)) →
  ∃ e, GenerateKey req w = (Err e, w2)
       ∧ (e = ErrCreateAlias msg ∨ e = ErrUpdateAlias msg)
       ∧ entries (plugin w2) = entries (plugin w)
       ∧ goroutines w2 = goroutines w.
Proof.
  intros Hid Hcreate Halias.
  pose proof (createKey_Ok_type _ _ _ _ _ Hcreate) as Hty.
  pose proof (createKey_frame _ _ _ _ _ Hcreate) as (E1 & _ & G1).
  unfold GenerateKey.
  rewrite (eqb_empty_false _ Hid), (bool_decide_eq_false_2 _ Hty).
  unfold bind. rewrite Hcreate. unfold entry. simpl. rewrite E1.
  destruct Halias as [[Hnone Hcall]|[[old Hold] Hcall]].
  - rewrite Hnone. unfold bind. rewrite Hcall. simpl.
    apply remote_frame in Hcall as (E2 & _ & _ & G2).
    eexists. split; [reflexivity|]. split; [left; reflexivity|].
    split; congruence.
  - rewrite Hold. unfold bind. rewrite Hcall. simpl.
    apply remote_frame in Hcall as (E2 & _ & _ & G2).
    eexists. split; [reflexivity|]. split; [right; reflexivity|].
    split; congruence.
Qed.

(** What a successful [GenerateKey] has done. *)
Lemma GenerateKey_Ok_inv (req : GenerateKeyRequest) (w w' : World K) resp :
  GenerateKey req w = (Ok resp, w') →
  ∃ e wa, createKey (gkr_KeyId req) (gkr_KeyType req) w = (Ok e, wa)
          ∧ entries (plugin w') = <[gkr_KeyId req := e]> (entries (plugin w))
          ∧ keyPrefix (plugin w') = keyPrefix (plugin w)
          ∧ resp = {| gkr_PublicKey := PublicKey e |}.
Proof.
  unfold GenerateKey.
  destruct (String.eqb (gkr_KeyId req) ""); [intros [=]|].
  case_bool_decide; [intros [=]|].
  unfold bind.
  destruct (createKey (gkr_KeyId req) (gkr_KeyType req) w) as [[e|err|] wa] eqn:Hc;
    try (intros [=]; fail).
  pose proof (createKey_frame _ _ _ _ _ Hc) as (E1 & P1 & _).
  unfold entry. simpl.
  destruct (entries (plugin wa) !! gkr_KeyId req) as [old|]; unfold bind.
  - destruct (remote UpdateAlias CallUpdateAlias _ wa) as [[[u|msg]|err|] wb] eqn:Hr;
      try (intros [=]; fail).
    apply remote_frame in Hr as (E2 & P2 & _). simpl.
    destruct (setEntry (gkr_KeyId req) e _) as [[[]|err|] wc] eqn:Hs; try (intros [=]; fail).
    apply setEntry_Ok_inv in Hs. subst wc. intros [= <- <-].
    exists e, wa. simpl. rewrite E2, E1, P2, P1. auto.
  - destruct (remote CreateAlias CallCreateAlias _ wa) as [[[u|msg]|err|] wb] eqn:Hr;
      try (intros [=]; fail).
    apply remote_frame in Hr as (E2 & P2 & _). simpl.
    destruct (setEntry (gkr_KeyId req) e wb) as [[[]|err|] wc] eqn:Hs; try (intros [=]; fail).
    apply setEntry_Ok_inv in Hs. subst wc. intros [= <- <-].
    exists e, wa. simpl. rewrite E2, E1, P2, P1. auto.
Qed.

(** The entries of two successive successful generations. *)
Lemma two_generations_entries (req : GenerateKeyRequest)
    (w0 w1 w1' w2 : World K) (r1 r2 : GenerateKeyResponse) :
  GenerateKey req w0 = (Ok r1, w1) →
  same_cache w1 w1' →
  GenerateKey req w1' = (Ok r2, w2) →
  ∃ e1 e2 pub1 pub2 wa wb,
    creates w0 (gkr_KeyId req) (gkr_KeyType req) pub1 wa
    ∧ creates w1' (gkr_KeyId req) (gkr_KeyType req) pub2 wb
    ∧ entries (plugin w1) !! gkr_KeyId req = Some e1
    ∧ entries (plugin w2) = <[gkr_KeyId req := e2]> (entries (plugin w1))
    ∧ gpo_KeyId pub1 = Some (KMSKeyID e1)
    ∧ gpo_KeyId pub2 = Some (KMSKeyID e2)
    ∧ Alias e1 = aliasPrefix +:+ keyPrefix (plugin w0) +:+ gkr_KeyId req
    ∧ Alias e2 = Alias e1.
Proof.
  intros H1 [Hsame Hpre] H2.
  apply GenerateKey_Ok_inv in H1 as (e1 & wa & Hc1 & E1 & P1 & _).
  apply GenerateKey_Ok_inv in H2 as (e2 & wb & Hc2 & E2 & P2 & _).
  apply createKey_Ok_inv in Hc1 as (pub1 & Hcr1 & Hid1 & Ha1 & _).
  apply createKey_Ok_inv in Hc2 as (pub2 & Hcr2 & Hid2 & Ha2 & _).
  rewrite <- Hsame in E2.
  exists e1, e2, pub1, pub2, wa, wb.
  split; [exact Hcr1|]. split; [exact Hcr2|].
  split; [rewrite E1; apply lookup_insert_eq|]. split; [exact E2|].
  split; [exact Hid1|]. split; [exact Hid2|]. split; [exact Ha1|].
  rewrite Ha1, Ha2. unfold aliasFromSpireKeyID. rewrite <- Hpre, P1. reflexivity.
Qed.

(** What the service answers to a key creation is determined by the world
    it starts in. *)
Lemma creates_functional (w wa wa' : World K) (spireKeyID : string)
    (keyType : KeyType) (pub pub' : GetPublicKeyOutput) :
  creates w spireKeyID keyType pub wa →
  creates w spireKeyID keyType pub' wa' →
  pub = pub' ∧ wa = wa'.
Proof.
  intros (ks & key & md & wm & Hks & Hck & Hmd & Hgp)
         (ks' & key' & md' & wm' & Hks' & Hck' & Hmd' & Hgp').
  rewrite Hks in Hks'. injection Hks' as <-.
  rewrite Hck in Hck'. injection Hck' as <- <-.
  rewrite Hmd in Hmd'. injection Hmd' as <-.
  rewrite Hgp in Hgp'. injection Hgp' as <- <-. auto.
Qed.

(** C1. After two successive successful [GenerateKey] calls for the same
    key id and key type (whatever the service did in between), where the
    service gave the second key an id other than the first's: the cache
    holds one entry for the key id and the second call added no key id; the
    entry's KMS key id is the one the service returned in the second
    generation and differs from the one the entry had after the first; the
    alias is the same string, "alias/" + prefix + id, after both. *)
Theorem GenerateKey_twice (req : GenerateKeyRequest)
    (w0 w1 w1' w2 : World K) (r1 r2 : GenerateKeyResponse)
    (pub1 pub2 : GetPublicKeyOutput) (wa wb : World K) :
  GenerateKey req w0 = (Ok r1, w1) →
  same_cache w1 w1' →
  GenerateKey req w1' = (Ok r2, w2) →
  creates w0 (gkr_KeyId req) (gkr_KeyType req) pub1 wa →
  creates w1' (gkr_KeyId req) (gkr_KeyType req) pub2 wb →
  gpo_KeyId pub2 ≠ gpo_KeyId pub1 →
  ∃ e1 e2,
    entries (plugin w1) !! gkr_KeyId req = Some e1
    ∧ entries (plugin w2) !! gkr_KeyId req = Some e2
    ∧ dom (entries (plugin w2)) = dom (entries (plugin w1))
    ∧ size (entries (plugin w2)) = size (entries (plugin w1))
    ∧ gpo_KeyId pub2 = Some (KMSKeyID e2)
    ∧ KMSKeyID e2 ≠ KMSKeyID e1
    ∧ Alias e1 = aliasPrefix +:+ keyPrefix (plugin w0) +:+ gkr_KeyId req
    ∧ Alias e2 = Alias e1.
Proof.
  intros H1 Hsame H2 Hcr1 Hcr2 Hfresh.
  destruct (two_generations_entries req w0 w1 w1' w2 r1 r2 H1 Hsame H2)
    as (e1 & e2 & p1 & p2 & wa' & wb' & Hc1 & Hc2 & L1 & E2 & Hid1 & Hid2 & Ha1 & Ha2).
  destruct (creates_functional _ _ _ _ _ _ _ Hcr1 Hc1) as [<- _].
  destruct (creates_functional _ _ _ _ _ _ _ Hcr2 Hc2) as [<- _].
  exists e1, e2. split; [exact L1|].
  split; [rewrite E2; apply lookup_insert_eq|].
  assert (Hdom : dom (entries (plugin w2)) = dom (entries (plugin w1))).
  { rewrite E2, dom_insert_L. apply subseteq_union_1_L, singleton_subseteq_l.
    apply elem_of_dom. eexists. exact L1. }
  split; [exact Hdom|].
  split; [rewrite <- !size_dom, Hdom; reflexivity|].
  split; [exact Hid2|].
  split; [intros Heq; apply Hfresh; rewrite Hid1, Hid2, Heq; reflexivity|].
  split; [exact Ha1|exact Ha2].
Qed.

End Generate.

Lemma GenerateKey_alias_failure_witness :
  ∃ e w2,
    GenerateKey Scripted.k1_request
      (Scripted.configured {["k1" := Scripted.an_entry "k1" "id-1"]}
         Scripted.alias_refused_script)
    = (Err e, w2)
    ∧ (e = ErrCreateAlias "access denied" ∨ e = ErrUpdateAlias "access denied")
    ∧ entries (plugin w2) = {["k1" := Scripted.an_entry "k1" "id-1"]}
    ∧ goroutines w2 = [].
Proof.
  pose (w := Scripted.configured {["k1" := Scripted.an_entry "k1" "id-1"]}
               Scripted.alias_refused_script).
  pose (created := createKey "k1" KeyType_EC_P256 w).
  pose (newEntry := Scripted.an_entry "k1" "id-2").
  pose (w2 := (remote UpdateAlias CallUpdateAlias
                 {| uai_AliasName := Some (Alias newEntry);
                    uai_TargetKeyId := Some (KMSKeyID newEntry) |} created.2).2).
  destruct (GenerateKey_alias_failure Scripted.k1_request w created.2 w2
              newEntry "access denied") as (e & Hrun & Hwhich & Hcache & Hgo).
  - discriminate.
  - reflexivity.
  - right. split; [eexists; vm_compute; reflexivity|reflexivity].
  - exists e, w2. split; [exact Hrun|]. split; [exact Hwhich|].
    split; [exact Hcache|exact Hgo].
Defined.

Lemma GenerateKey_twice_witness :
  ∃ w1 w2 e1 e2,
    GenerateKey Scripted.k1_request (Scripted.configured ∅ Scripted.rotation_script)
    = (Ok {| gkr_PublicKey := PublicKey e1 |}, w1)
    ∧ GenerateKey Scripted.k1_request w1 = (Ok {| gkr_PublicKey := PublicKey e2 |}, w2)
    ∧ entries (plugin w1) !! "k1" = Some e1
    ∧ entries (plugin w2) !! "k1" = Some e2
    ∧ size (entries (plugin w2)) = size (entries (plugin w1))
    ∧ KMSKeyID e1 = "id-1"
    ∧ KMSKeyID e2 = "id-2"
    ∧ KMSKeyID e2 ≠ KMSKeyID e1
    ∧ Alias e2 = Alias e1.
Proof.
  pose (w0 := Scripted.configured ∅ Scripted.rotation_script).
  pose (run1 := GenerateKey Scripted.k1_request w0).
  pose (run2 := GenerateKey Scripted.k1_request run1.2).
  pose (resp := {| gkr_PublicKey :=
                     Some {| Id := "k1"; Type_ := KeyType_EC_P256;
                             PkixData := Scripted.pkix |} |}).
  destruct (GenerateKey_twice Scripted.k1_request w0 run1.2 run1.2 run2.2 resp resp
              {| gpo_KeyId := Some "id-1"; gpo_PublicKey := Scripted.pkix |}
              {| gpo_KeyId := Some "id-2"; gpo_PublicKey := Scripted.pkix |}
              (createKey "k1" KeyType_EC_P256 w0).2
              (createKey "k1" KeyType_EC_P256 run1.2).2)
    as (e1 & e2 & L1 & L2 & _ & Hsize & _ & Hne & _ & Halias).
  - reflexivity.
  - split; reflexivity.
  - reflexivity.
  - do 4 eexists. repeat split; reflexivity.
  - do 4 eexists. repeat split; reflexivity.
  - discriminate.
  - exists run1.2, run2.2, e1, e2.
    assert (E1 : e1 = Scripted.an_entry "k1" "id-1")
      by (vm_compute in L1; injection L1 as <-; reflexivity).
    assert (E2 : e2 = Scripted.an_entry "k1" "id-2")
      by (vm_compute in L2; injection L2 as <-; reflexivity).
    split; [rewrite E1; reflexivity|]. split; [rewrite E2; reflexivity|].
    split; [exact L1|]. split; [exact L2|]. split; [exact Hsize|].
    split; [rewrite E1; reflexivity|]. split; [rewrite E2; reflexivity|].
    split; [exact Hne|exact Halias].
Defined.

(* ===================================================================== *)
(** ** Reading the cache: GetPublicKey and GetPublicKeys                 *)
(* ===================================================================== *)

Section Reads.
Context {K : Type} `{!kmsClient K}.

(** X1. [GetPublicKey] never changes the plugin nor calls the service.  It
    asks for a key id, fails with "no such key" for an id the cache does not
    hold, and otherwise answers with the public key of the cached entry. *)
Theorem GetPublicKey_lookup (req : GetPublicKeyRequest) (w : World K) :
  (GetPublicKey req w).2 = w
  ∧ (gpr_KeyId req = "" → (GetPublicKey req w).1 = Err ErrKeyIdRequired)
  ∧ (gpr_KeyId req ≠ "" →
     entries (plugin w) !! gpr_KeyId req = None →
     (GetPublicKey req w).1 = Err (ErrNoSuchKey (gpr_KeyId req)))
  ∧ (∀ e, gpr_KeyId req ≠ "" →
          entries (plugin w) !! gpr_KeyId req = Some e →
          (GetPublicKey req w).1 = Ok {| gpr_PublicKey := PublicKey e |}).
Proof.
  unfold GetPublicKey, bind, entry, throw.
  destruct (String.eqb_spec (gpr_KeyId req) "") as [E|N]; simpl.
  - repeat split; try reflexivity; intros; contradiction.
  - destruct (entries (plugin w) !! gpr_KeyId req) as [e|] eqn:L; simpl;
      repeat split; try reflexivity; try contradiction; try discriminate.
    intros e' _ [= <-]. reflexivity.
Qed.

(** X2. [GetPublicKeys] never fails and never changes the plugin.  It
    answers with one public key per cached entry: as many keys as the cache
    has entries, a key being listed exactly when an entry holds it; on a
    well-formed cache no key is listed twice. *)
Theorem GetPublicKeys_all (w : World K) :
  ∃ resp,
    GetPublicKeys w = (Ok resp, w)
    ∧ length (gpr_PublicKeys resp) = size (entries (plugin w))
    ∧ (∀ pk, pk ∈ gpr_PublicKeys resp
             ↔ ∃ k e, entries (plugin w) !! k = Some e ∧ PublicKey e = pk)
    ∧ (cache_ok (entries (plugin w)) → NoDup (gpr_PublicKeys resp)).
Proof.
  eexists. split; [reflexivity|]. simpl. unfold clonePublicKey.
  split; [rewrite length_fmap; apply length_map_to_list|]. split.
  - intros pk. rewrite list_elem_of_fmap. split.
    + intros ([k e] & -> & Hin). apply elem_of_map_to_list in Hin. eauto.
    + intros (k & e & L & <-). exists (k, e). split; [reflexivity|].
      apply elem_of_map_to_list. exact L.
  - intros Hok. apply NoDup_fmap_2_strong; [|apply NoDup_map_to_list].
    intros [k e] [k' e'] Hin Hin' Heq. simpl in Heq.
    apply elem_of_map_to_list in Hin, Hin'.
    destruct (Hok k e Hin) as (_ & pk & Hpk & Hk).
    destruct (Hok k' e' Hin') as (_ & pk' & Hpk' & Hk').
    assert (k = k') as <- by congruence.
    assert (e = e') as <- by congruence. reflexivity.
Qed.

End Reads.

(** [GetPublicKey] on the scripted plugin that holds "k1". *)
Example GetPublicKey_k1 :
  GetPublicKey {| gpr_KeyId := "k1" |} (Scenario.holding_k1 [])
  = (Ok {| gpr_PublicKey := Some {| Id := "k1"; Type_ := KeyType_EC_P256;
                                    PkixData := Scripted.pkix |} |},
     Scenario.holding_k1 []).
Proof. vm_compute. reflexivity. Qed.

(* ===================================================================== *)
(** ** Signing                                                           *)
(* ===================================================================== *)

(** X3. The signer options decide before the key type does: no options,
    options of another type and PSS options without a body are refused
    whatever the key; the salt length of PSS options is never looked at;
    and an algorithm is only returned for a supported key type, an ECDSA
    one for an elliptic-curve key and an RSASSA one for an RSA key. *)
Theorem signingAlgorithmForKMS_opts (kt : KeyType) :
  signingAlgorithmForKMS kt None = Err ErrUnsupportedSignerOpts
  ∧ signingAlgorithmForKMS kt (Some SignerOpts_other) = Err ErrUnsupportedSignerOpts
  ∧ signingAlgorithmForKMS kt (Some (SignDataRequest_PssOptions None))
    = Err ErrPssOptionsRequired
  ∧ (∀ h salt salt',
       signingAlgorithmForKMS kt (signerOptsOf h true salt)
       = signingAlgorithmForKMS kt (signerOptsOf h true salt'))
  ∧ (∀ opts algo,
       signingAlgorithmForKMS kt opts = Ok algo →
       (kt ∈ [KeyType_EC_P256; KeyType_EC_P384] ∧ algo ∈ ecdsaAlgorithms)
       ∨ (kt ∈ [KeyType_RSA_2048; KeyType_RSA_4096] ∧ algo ∈ rsaAlgorithms)).
Proof.
  split; [reflexivity|]. split; [reflexivity|]. split; [reflexivity|].
  split; [intros h salt salt'; reflexivity|].
  intros [[h|[[h salt]|]|]|] algo; try (intros [=]; fail);
    destruct kt, h; simpl; try (intros [=]; fail); intros [= <-];
    first [ left; split; unfold ecdsaAlgorithms; repeat constructor; fail
          | right; split; unfold rsaAlgorithms; repeat constructor ].
Qed.

Section Signing.
Context {K : Type} `{!kmsClient K}.

(** X4. For a cached key and signer options that map to an algorithm,
    [SignData] issues one [Sign] call: on the alias of the entry (not on its
    KMS key id), with the request's data as a digest and the mapped
    algorithm.  The signature of the answer is returned as it is, a failure
    is returned as "failed to sign", and the cache is not touched. *)
Theorem SignData_signs_with_alias (req : SignDataRequest) (w w' : World K)
    (e : keyEntry) (pk : keymanager_PublicKey) (algo : SigningAlgorithmSpec)
    (ans : SignOutput + string) :
  sdr_KeyId req ≠ "" →
  entries (plugin w) !! sdr_KeyId req = Some e →
  PublicKey e = Some pk →
  signingAlgorithmForKMS (Type_ pk) (sdr_SignerOpts req) = Ok algo →
  remote Sign CallSign (sign_input e (sdr_Data req) algo) w = (Ok ans, w') →
  SignData req w
  = (match ans with
     | inl out => Ok {| sdr_Signature := so_Signature out |}
     | inr msg => Err (ErrSign msg)
     end, w')
  ∧ calls w' = (calls w ++ [CallSign (sign_input e (sdr_Data req) algo)])%list
  ∧ entries (plugin w') = entries (plugin w).
Proof.
  intros Hid L Hpk Halgo Hcall.
  assert (Hopts : sdr_SignerOpts req ≠ None)
    by (intros E; rewrite E in Halgo; discriminate Halgo).
  split.
  - unfold SignData. rewrite (eqb_empty_false _ Hid).
    destruct (sdr_SignerOpts req) as [o|] eqn:Eo; [|contradiction].
    unfold bind, entry. rewrite L, Hpk, Halgo.
    unfold sign_input in Hcall. rewrite Hcall. destruct ans; reflexivity.
  - split; [apply (remote_logged _ _ _ _ _ _ Hcall)|].
    apply (remote_frame _ _ _ _ _ _ Hcall).
Qed.

Lemma SignData_cases (req : SignDataRequest) (w : World K) :
  SignData req w = (Panic, w)
  ∨ (∃ e, SignData req w = (Err e, w) ∧ ∀ msg, e ≠ ErrSign msg)
  ∨ (∃ i r, SignData req w
            = (match r.1 with
               | inl out => Ok {| sdr_Signature := so_Signature out |}
               | inr msg => Err (ErrSign msg)
               end, r.2)
            ∧ remote Sign CallSign i w = (Ok r.1, r.2)).
Proof.
  unfold SignData.
  destruct (String.eqb (sdr_KeyId req) "");
    [right; left; eexists; split; [reflexivity|discriminate]|].
  destruct (sdr_SignerOpts req) as [o|];
    [|right; left; eexists; split; [reflexivity|discriminate]].
  unfold bind, entry.
  destruct (entries (plugin w) !! sdr_KeyId req) as [e|];
    [|right; left; eexists; split; [reflexivity|discriminate]].
  destruct (PublicKey e) as [pk|]; [|left; reflexivity].
  destruct (signingAlgorithmForKMS (Type_ pk) (Some o)) as [algo|err|] eqn:Ha;
    [| |left; reflexivity].
  - destruct (remote Sign CallSign _ w) as [[ans|err|] w1] eqn:Hr.
    + right; right. eexists _, (ans, w1). split; [|exact Hr].
      simpl. destruct ans; reflexivity.
    + unfold remote in Hr. destruct (client (plugin w)); [|discriminate Hr].
      destruct (Sign _ _). discriminate Hr.
    + unfold remote in Hr. destruct (client (plugin w)).
      * destruct (Sign _ _). discriminate Hr.
      * injection Hr as <-. left. reflexivity.
  - right; left. exists err. split; [reflexivity|].
    intros msg ->. revert Ha. unfold signingAlgorithmForKMS.
    destruct o as [h|[[h s]|]|]; try discriminate;
      repeat match goal with
      | |- context [if ?b then _ else _] => destruct b
      end; discriminate.
Qed.

(** X5. Whatever the request, [SignData] leaves the cache, the key prefix
    and the started goroutines as they are and issues at most one call, a
    [Sign]; when it fails with anything but "failed to sign", it has issued
    no call and the plugin is as before. *)
Theorem SignData_frame (req : SignDataRequest) (w : World K) :
  entries (plugin (SignData req w).2) = entries (plugin w)
  ∧ keyPrefix (plugin (SignData req w).2) = keyPrefix (plugin w)
  ∧ goroutines (SignData req w).2 = goroutines w
  ∧ (calls (SignData req w).2 = calls w
     ∨ ∃ i, calls (SignData req w).2 = (calls w ++ [CallSign i])%list)
  ∧ (∀ e, (SignData req w).1 = Err e → (∀ msg, e ≠ ErrSign msg) →
          (SignData req w).2 = w).
Proof.
  destruct (SignData_cases req w) as [E|[(e & E & Hne)|(i & r & E & Hr)]];
    rewrite E; simpl.
  - repeat split; auto; intros ? [=].
  - repeat split; auto.
  - pose proof (remote_frame _ _ _ _ _ _ Hr) as (E1 & P1 & _ & G1).
    pose proof (remote_logged _ _ _ _ _ _ Hr) as C1.
    split; [exact E1|]. split; [exact P1|]. split; [exact G1|].
    split; [right; eauto|].
    intros e He Hne. destruct r.1 as [out|msg]; [discriminate He|].
    injection He as <-. exfalso. exact (Hne msg eq_refl).
Qed.

(** X6. On a configured plugin with a well-formed cache, [SignData] does
    not panic, whatever the request and whatever the service answers. *)
Theorem SignData_no_panic (req : SignDataRequest) (w : World K) :
  cache_ok (entries (plugin w)) →
  client (plugin w) ≠ None →
  (SignData req w).1 ≠ Panic.
Proof.
  intros Hok Hc. unfold SignData.
  destruct (String.eqb (sdr_KeyId req) ""); [discriminate|].
  destruct (sdr_SignerOpts req) as [o|]; [|discriminate].
  unfold bind, entry.
  destruct (entries (plugin w) !! sdr_KeyId req) as [e|] eqn:L; [|discriminate].
  destruct (Hok _ _ L) as (_ & pk & -> & _).
  destruct (signingAlgorithmForKMS (Type_ pk) (Some o)) as [algo|err|] eqn:Ha;
    [|discriminate|].
  - unfold remote. destruct (client (plugin w)) as [k|]; [|contradiction].
    destruct (Sign k _) as [[out|msg] k']; discriminate.
  - exfalso. revert Ha. unfold signingAlgorithmForKMS.
    destruct o as [h|[[h s]|]|]; try discriminate;
      repeat match goal with
      | |- context [if ?b then _ else _] => destruct b
      end; discriminate.
Qed.

End Signing.

Lemma SignData_signs_with_alias_witness :
  ∃ w',
    SignData Scenario.sign_request
      (Scenario.holding_k1 [Scripted.OnSign (inl Scenario.signed)])
    = (Ok {| sdr_Signature := [Byte.xaa; Byte.xbb] |}, w')
    ∧ calls w'
      = [CallSign {| si_KeyId := Some "alias/SPIRE_SERVER_KEY/k1";
                     si_Message := [Byte.x01; Byte.x02];
                     si_MessageType := "DIGEST";
                     si_SigningAlgorithm := "ECDSA_SHA_256" |}]
    ∧ entries (plugin w') = {["k1" := Scripted.an_entry "k1" "id-1"]}.
Proof.
  pose (w := Scenario.holding_k1 [Scripted.OnSign (inl Scenario.signed)]).
  pose (e := Scripted.an_entry "k1" "id-1").
  pose (run := remote Sign CallSign
                 (sign_input e (sdr_Data Scenario.sign_request) "ECDSA_SHA_256") w).
  destruct (SignData_signs_with_alias Scenario.sign_request w run.2 e
              {| Id := "k1"; Type_ := KeyType_EC_P256; PkixData := Scripted.pkix |}
              "ECDSA_SHA_256" (inl Scenario.signed))
    as (Hrun & Hcalls & Hcache).
  - discriminate.
  - vm_compute. reflexivity.
  - reflexivity.
  - reflexivity.
  - reflexivity.
  - exists run.2. split; [exact Hrun|]. split; [exact Hcalls|exact Hcache].
Defined.

Lemma SignData_no_panic_witness :
  (SignData Scenario.sign_request (Scenario.holding_k1 [])).1 ≠ Panic.
Proof.
  refine (SignData_no_panic Scenario.sign_request (Scenario.holding_k1 []) _ _).
  - intros k e L. unfold Scenario.holding_k1, Scripted.configured in L. simpl in L.
    apply lookup_singleton_Some in L as [<- <-]. split.
    + intros [H|[H|[H|[H|(pk & Heq & [H|[H|H]])]]]]; try discriminate H;
        injection Heq as <-; discriminate H.
    + eexists. split; reflexivity.
  - discriminate.
Defined.

(* ===================================================================== *)
(** ** Key generation: validation, failures, effects                     *)
(* ===================================================================== *)

Section GenerateMore.
Context {K : Type} `{!kmsClient K}.

(** [GenerateKey] past its two checks, as its steps. *)
Lemma GenerateKey_steps (req : GenerateKeyRequest) (w : World K) :
  gkr_KeyId req ≠ "" →
  gkr_KeyType req ≠ KeyType_UNSPECIFIED_KEY_TYPE →
  GenerateKey req w =
  match createKey (gkr_KeyId req) (gkr_KeyType req) w with
  | (Ok newEntry, wa) =>
    let old := entries (plugin w) !! gkr_KeyId req in
    match repoint old newEntry wa with
    | (Ok (inl _), wb) =>
      match setEntry (gkr_KeyId req) newEntry (started old wb) with
      | (Ok _, wc) => (Ok {| gkr_PublicKey := PublicKey newEntry |}, wc)
      | (Err e, wc) => (Err e, wc)
      | (Panic, wc) => (Panic, wc)
      end
    | (Ok (inr msg), wb) => (Err (alias_error old msg), wb)
    | (Err e, wb) => (Err e, wb)
    | (Panic, wb) => (Panic, wb)
    end
  | (Err e, wa) => (Err e, wa)
  | (Panic, wa) => (Panic, wa)
  end.
Proof.
  intros Hid Hty. unfold GenerateKey.
  rewrite (eqb_empty_false _ Hid), (bool_decide_eq_false_2 _ Hty).
  unfold bind.
  destruct (createKey (gkr_KeyId req) (gkr_KeyType req) w) as [[e|err|] wa] eqn:Hc;
    try reflexivity.
  pose proof (createKey_frame _ _ _ _ _ Hc) as (E1 & _).
  unfold entry. simpl. rewrite E1.
  destruct (entries (plugin w) !! gkr_KeyId req) as [old|]; unfold repoint, bind; simpl.
  - destruct (remote UpdateAlias CallUpdateAlias _ wa) as [[[u|msg]|err|] wb];
      reflexivity.
  - destruct (remote CreateAlias CallCreateAlias _ wa) as [[[u|msg]|err|] wb];
      reflexivity.
Qed.

Lemma repoint_frame (old : option keyEntry) (e : keyEntry) (w w' : World K) r :
  repoint old e w = (r, w') →
  entries (plugin w') = entries (plugin w)
  ∧ keyPrefix (plugin w') = keyPrefix (plugin w)
  ∧ goroutines w' = goroutines w.
Proof.
  destruct old; intros H; apply remote_frame in H; tauto.
Qed.

Lemma repoint_logged (old : option keyEntry) (e : keyEntry) (w w' : World K) a :
  repoint old e w = (Ok a, w') → calls w' = (calls w ++ [alias_call old e])%list.
Proof.
  destruct old; intros H; apply remote_logged in H; exact H.
Qed.

Lemma started_frame (old : option keyEntry) (w : World K) :
  plugin (started old w) = plugin w ∧ calls (started old w) = calls w
  ∧ goroutines (started old w) = (goroutines w ++ option_list old)%list.
Proof.
  destruct old; simpl; [auto|]. rewrite app_nil_r. auto.
Qed.

Lemma setEntry_Ok_valid (spireKeyID : string) (e : keyEntry) (w w' : World K) :
  setEntry spireKeyID e w = (Ok tt, w') → ¬ missing_field spireKeyID e.
Proof.
  intros H Hm. destruct (setEntry_rejects spireKeyID e w Hm) as [err E].
  rewrite E in H. discriminate H.
Qed.

Lemma createKey_unsupported (spireKeyID : string) (keyType : KeyType) (w : World K) :
  keyType ∉ supportedKeyTypes →
  ∃ e, createKey spireKeyID keyType w = (Err e, w)
       ∧ (e = ErrUnsupportedKeyType1024 ∨ e = ErrUnknownKeyType).
Proof.
  intros Hn. unfold createKey.
  destruct (keySpecFromKeyType_unsupported keyType Hn) as [E|E]; rewrite E; eauto.
Qed.

(** X7. [GenerateKey] refuses a request before any call to the service:
    an empty key id, an unspecified key type, RSA_1024 and any key type
    outside the four supported ones get an error, and the plugin and the
    call log are as before. *)
Theorem GenerateKey_rejects_early (req : GenerateKeyRequest) (w : World K) :
  gkr_KeyId req = "" ∨ gkr_KeyType req ∉ supportedKeyTypes →
  ∃ e, GenerateKey req w = (Err e, w)
       ∧ e ∈ [ErrKeyIdRequired; ErrKeyTypeRequired;
              ErrUnsupportedKeyType1024; ErrUnknownKeyType]
       ∧ (gkr_KeyId req = "" → e = ErrKeyIdRequired)
       ∧ (gkr_KeyId req ≠ "" → gkr_KeyType req = KeyType_RSA_1024 →
          e = ErrUnsupportedKeyType1024).
Proof.
  intros Hbad.
  destruct (String.eqb_spec (gkr_KeyId req) "") as [Hid|Hid].
  { exists ErrKeyIdRequired. unfold GenerateKey. rewrite (eqb_empty_true _ Hid).
    split; [reflexivity|]. split; [repeat constructor|].
    split; [reflexivity|contradiction]. }
  destruct Hbad as [?|Hn]; [contradiction|].
  destruct (decide (gkr_KeyType req = KeyType_UNSPECIFIED_KEY_TYPE)) as [Hty|Hty].
  { exists ErrKeyTypeRequired. unfold GenerateKey.
    rewrite (eqb_empty_false _ Hid), (bool_decide_eq_true_2 _ Hty).
    split; [reflexivity|]. split; [repeat constructor|].
    split; [contradiction|]. intros _ E. rewrite E in Hty. discriminate Hty. }
  destruct (createKey_unsupported (gkr_KeyId req) _ w Hn) as (e & Hc & He).
  exists e. rewrite (GenerateKey_steps req w Hid Hty), Hc.
  split; [reflexivity|].
  split; [destruct He as [-> | ->]; repeat constructor|].
  split; [contradiction|].
  intros _ E. unfold createKey in Hc. rewrite E in Hc. simpl in Hc.
  injection Hc as <-. reflexivity.
Qed.

Lemma failed_generation_keeps_cache (req : GenerateKeyRequest) (w : World K) :
  keyPrefix (plugin (GenerateKey req w).2) = keyPrefix (plugin w)
  ∧ ((∀ resp, (GenerateKey req w).1 ≠ Ok resp) →
     entries (plugin (GenerateKey req w).2) = entries (plugin w)).
Proof.
  destruct (String.eqb_spec (gkr_KeyId req) "") as [Hid|Hid].
  { unfold GenerateKey. rewrite (eqb_empty_true _ Hid). simpl. auto. }
  destruct (decide (gkr_KeyType req = KeyType_UNSPECIFIED_KEY_TYPE)) as [Hty|Hty].
  { unfold GenerateKey.
    rewrite (eqb_empty_false _ Hid), (bool_decide_eq_true_2 _ Hty). simpl. auto. }
  rewrite (GenerateKey_steps req w Hid Hty).
  destruct (createKey (gkr_KeyId req) (gkr_KeyType req) w) as [[e|err|] wa] eqn:Hc;
    pose proof (createKey_frame _ _ _ _ _ Hc) as (E1 & P1 & _); simpl; auto.
  destruct (repoint _ e wa) as [[[u|msg]|err|] wb] eqn:Hr;
    pose proof (repoint_frame _ _ _ _ _ Hr) as (E2 & P2 & _); simpl;
    try (split; [congruence|intros _; congruence]).
  destruct (started_frame (entries (plugin w) !! gkr_KeyId req) wb) as (S1 & _).
  destruct (setEntry _ e _) as [[[]|err|] wc] eqn:Hs;
    pose proof (setEntry_frame _ _ _ _ _ Hs) as (_ & P3 & _ & _ & Hsame); simpl.
  - split; [rewrite P3, S1; congruence|]. intros Hno. exfalso. eapply Hno. reflexivity.
  - split; [rewrite P3, S1; congruence|]. intros _.
    rewrite (Hsame ltac:(discriminate)), S1. congruence.
  - split; [rewrite P3, S1; congruence|]. intros _.
    rewrite (Hsame ltac:(discriminate)), S1. congruence.
Qed.


Lemma createKey_Ok_supported (spireKeyID : string) (keyType : KeyType)
    (w w' : World K) (e : keyEntry) :
  createKey spireKeyID keyType w = (Ok e, w') → keyType ∈ supportedKeyTypes.
Proof.
  intros H. destruct (decide (keyType ∈ supportedKeyTypes)) as [|Hn]; [assumption|].
  destruct (createKey_unsupported spireKeyID keyType w Hn) as (err & E & _).
  rewrite E in H. discriminate H.
Qed.

(** What a successful [GenerateKey] went through. *)
Lemma GenerateKey_Ok_full (req : GenerateKeyRequest) (w w' : World K) resp :
  GenerateKey req w = (Ok resp, w') →
  ∃ newEntry wa wb,
    gkr_KeyId req ≠ ""
    ∧ createKey (gkr_KeyId req) (gkr_KeyType req) w = (Ok newEntry, wa)
    ∧ repoint (entries (plugin w) !! gkr_KeyId req) newEntry wa = (Ok (inl tt), wb)
    ∧ ¬ missing_field (gkr_KeyId req) newEntry
    ∧ w' = with_plugin
             (λ p, set_entries (<[gkr_KeyId req := newEntry]> (entries p)) p)
             (started (entries (plugin w) !! gkr_KeyId req) wb)
    ∧ resp = {| gkr_PublicKey := PublicKey newEntry |}.
Proof.
  destruct (String.eqb_spec (gkr_KeyId req) "") as [Hid|Hid].
  { unfold GenerateKey. rewrite (eqb_empty_true _ Hid). intros [=]. }
  destruct (decide (gkr_KeyType req = KeyType_UNSPECIFIED_KEY_TYPE)) as [Hty|Hty].
  { unfold GenerateKey.
    rewrite (eqb_empty_false _ Hid), (bool_decide_eq_true_2 _ Hty). intros [=]. }
  rewrite (GenerateKey_steps req w Hid Hty).
  destruct (createKey (gkr_KeyId req) (gkr_KeyType req) w) as [[e|err|] wa] eqn:Hc;
    try (intros [=]; fail).
  simpl.
  destruct (repoint _ e wa) as [[[[]|msg]|err|] wb] eqn:Hr; try (intros [=]; fail).
  destruct (setEntry _ e _) as [[[]|err|] wc] eqn:Hs; try (intros [=]; fail).
  intros [= <- <-]. exists e, wa, wb.
  split; [exact Hid|]. split; [reflexivity|]. split; [exact Hr|].
  split; [exact (setEntry_Ok_valid _ _ _ _ Hs)|].
  split; [apply (setEntry_Ok_inv _ _ _ _ Hs)|reflexivity].
Qed.

Lemma GenerateKey_Ok_cache (req : GenerateKeyRequest) (w w' : World K) resp :
  GenerateKey req w = (Ok resp, w') →
  ∃ newEntry,
    entries (plugin w') = <[gkr_KeyId req := newEntry]> (entries (plugin w))
    ∧ ¬ missing_field (gkr_KeyId req) newEntry
    ∧ PublicKey newEntry = gkr_PublicKey resp
    ∧ ∃ pk, PublicKey newEntry = Some pk ∧ Id pk = gkr_KeyId req
            ∧ Type_ pk = gkr_KeyType req.
Proof.
  intros H. apply GenerateKey_Ok_full in H
    as (e & wa & wb & Hid & Hc & Hr & Hv & -> & ->).
  pose proof (createKey_frame _ _ _ _ _ Hc) as (E1 & _).
  pose proof (repoint_frame _ _ _ _ _ Hr) as (E2 & _).
  destruct (started_frame (entries (plugin w) !! gkr_KeyId req) wb) as (S1 & _).
  apply createKey_Ok_inv in Hc as (pub & _ & _ & _ & Hpk).
  exists e. split; [simpl; rewrite S1, E2, E1; reflexivity|].
  split; [exact Hv|]. split; [reflexivity|].
  eexists. split; [exact Hpk|]. split; reflexivity.
Qed.

(** X9. What [GenerateKey] hands back can be read again: after a
    successful call the response holds a public key with the requested key
    id, the requested (supported) key type and key bytes that are not
    empty; [GetPublicKey] for that id answers with that very key, in any
    later state with the same cache; and the entries of all other key ids
    are as they were. *)
Theorem GenerateKey_then_GetPublicKey (req : GenerateKeyRequest)
    (w w' : World K) (resp : GenerateKeyResponse) :
  GenerateKey req w = (Ok resp, w') →
  ∃ pk,
    gkr_PublicKey resp = Some pk
    ∧ Id pk = gkr_KeyId req
    ∧ Type_ pk = gkr_KeyType req
    ∧ gkr_KeyType req ∈ supportedKeyTypes
    ∧ PkixData pk ≠ []
    ∧ (∀ w'' : World K, entries (plugin w'') = entries (plugin w') →
              GetPublicKey {| gpr_KeyId := gkr_KeyId req |} w''
              = (Ok {| gpr_PublicKey := Some pk |}, w''))
    ∧ (∀ k, k ≠ gkr_KeyId req →
            entries (plugin w') !! k = entries (plugin w) !! k).
Proof.
  intros H.
  pose proof (GenerateKey_Ok_full _ _ _ _ H) as (e0 & wa & _ & Hid & Hc & _).
  apply createKey_Ok_supported in Hc.
  apply GenerateKey_Ok_cache in H as (e & Hm & Hv & Hresp & pk & Hpk & Hk & Ht).
  exists pk. split; [congruence|]. split; [exact Hk|]. split; [exact Ht|].
  split; [exact Hc|]. split.
  { intros Hd. apply Hv. do 4 right. exists pk. auto. }
  split.
  - intros w'' Hsame. unfold GetPublicKey. simpl.
    rewrite (eqb_empty_false _ Hid). unfold bind, entry.
    rewrite Hsame, Hm, lookup_insert_eq. unfold clonePublicKey, ret.
    rewrite Hpk. reflexivity.
  - intros k Hne. rewrite Hm. apply lookup_insert_ne. congruence.
Qed.

Lemma createKey_logged (spireKeyID : string) (keyType : KeyType)
    (w w' : World K) (e : keyEntry) :
  createKey spireKeyID keyType w = (Ok e, w') →
  ∃ keySpec kid,
    keySpecFromKeyType keyType = Ok keySpec
    ∧ calls w' = (calls w ++ [CallCreateKey (create_input (plugin w) spireKeyID keySpec);
                              CallGetPublicKey {| gpi_KeyId := kid |}])%list.
Proof.
  intros H. apply createKey_Ok_inv in H as (pub & Hcr & _).
  destruct Hcr as (keySpec & key & md & wa & Hks & Hck & _ & Hgp).
  exists keySpec, (km_KeyId md). split; [exact Hks|].
  apply remote_logged in Hck, Hgp. rewrite Hgp, Hck, <- app_assoc. reflexivity.
Qed.

(** X10. A successful [GenerateKey] has issued three calls, in this
    order: [CreateKey] with the description prefix + id, the sign/verify
    usage and the key spec of the requested type; one [GetPublicKey]
    call; and one alias call for "alias/" + prefix + id with the new
    KMS key id as its target, [CreateAlias] when the cache had no entry for
    the id and [UpdateAlias] when it had one. *)
Theorem GenerateKey_calls (req : GenerateKeyRequest)
    (w w' : World K) (resp : GenerateKeyResponse) :
  GenerateKey req w = (Ok resp, w') →
  ∃ newEntry keySpec kid,
    keySpecFromKeyType (gkr_KeyType req) = Ok keySpec
    ∧ entries (plugin w') !! gkr_KeyId req = Some newEntry
    ∧ Alias newEntry = aliasPrefix +:+ keyPrefix (plugin w) +:+ gkr_KeyId req
    ∧ calls w'
      = (calls w ++
         [CallCreateKey
            {| cki_Description := Some (keyPrefix (plugin w) +:+ gkr_KeyId req);
               cki_KeyUsage := "SIGN_VERIFY";
               cki_CustomerMasterKeySpec := keySpec |};
          CallGetPublicKey {| gpi_KeyId := kid |};
          alias_call (entries (plugin w) !! gkr_KeyId req) newEntry])%list.
Proof.
  intros H.
  pose proof (GenerateKey_Ok_cache _ _ _ _ H) as (e' & Hm & _).
  apply GenerateKey_Ok_full in H as (e & wa & wb & Hid & Hc & Hr & Hv & -> & _).
  destruct (createKey_logged _ _ _ _ _ Hc) as (keySpec & kid & Hks & Hl).
  apply createKey_Ok_inv in Hc as (pub & _ & _ & Ha & _).
  destruct (started_frame (entries (plugin w) !! gkr_KeyId req) wb) as (_ & S2 & _).
  apply repoint_logged in Hr.
  exists e, keySpec, kid. split; [exact Hks|].
  split; [simpl; apply lookup_insert_eq|]. split; [exact Ha|].
  simpl. rewrite S2, Hr, Hl, <- app_assoc. reflexivity.
Qed.

(** X11. A successful [GenerateKey] starts the deletion of the superseded
    key and of nothing else: when the cache held an entry for the id, one
    goroutine is started, for that entry; on a first generation none is. *)
Theorem GenerateKey_starts_deletion (req : GenerateKeyRequest)
    (w w' : World K) (resp : GenerateKeyResponse) :
  GenerateKey req w = (Ok resp, w') →
  goroutines w'
  = (goroutines w ++ option_list (entries (plugin w) !! gkr_KeyId req))%list.
Proof.
  intros H.
  apply GenerateKey_Ok_full in H as (e & wa & wb & _ & Hc & Hr & _ & -> & _).
  pose proof (createKey_frame _ _ _ _ _ Hc) as (_ & _ & G1).
  pose proof (repoint_frame _ _ _ _ _ Hr) as (_ & _ & G2).
  destruct (started_frame (entries (plugin w) !! gkr_KeyId req) wb) as (_ & _ & S3).
  simpl. rewrite S3, G2, G1. reflexivity.
Qed.

(** X12. The deletion goroutine is best effort: on a plugin with a client
    it issues one [ScheduleKeyDeletion] call, for the KMS key id of the old
    entry with a pending window of 7 days, and ends well whatever the
    service answers; the cache and the key prefix are not touched. *)
Theorem scheduleDelete_best_effort (oldEntry : keyEntry) (w : World K) :
  client (plugin w) ≠ None →
  ∃ w', scheduleDelete oldEntry w = (Ok tt, w')
        ∧ calls w'
          = (calls w ++
             [CallScheduleKeyDeletion
                {| skd_KeyId := Some (KMSKeyID oldEntry);
                   skd_PendingWindowInDays := Some 7%Z |}])%list
        ∧ entries (plugin w') = entries (plugin w)
        ∧ keyPrefix (plugin w') = keyPrefix (plugin w).
Proof.
  intros Hc. unfold scheduleDelete, bind, remote.
  destruct (client (plugin w)) as [k|]; [|contradiction].
  destruct (ScheduleKeyDeletion k _) as [r k']. eexists. split; [reflexivity|].
  simpl. auto.
Qed.


(** X14. When the service refuses to create the key, or creates it and
    refuses its public key, [GenerateKey] fails with that error without any
    alias call: the cache is as before, and in the second case the created
    key is left without an alias. *)
Theorem GenerateKey_creation_failure (req : GenerateKeyRequest)
    (w wa : World K) (keySpec : CustomerMasterKeySpec) (msg : string) :
  gkr_KeyId req ≠ "" →
  keySpecFromKeyType (gkr_KeyType req) = Ok keySpec →
  (remote CreateKey CallCreateKey (create_input (plugin w) (gkr_KeyId req) keySpec) w
   = (Ok (inr msg), wa) →
   GenerateKey req w = (Err (ErrCreateKey msg), wa)
   ∧ entries (plugin wa) = entries (plugin w)
   ∧ calls wa
     = (calls w ++ [CallCreateKey (create_input (plugin w) (gkr_KeyId req) keySpec)])%list)
  ∧ (∀ key md wb,
       remote CreateKey CallCreateKey (create_input (plugin w) (gkr_KeyId req) keySpec) w
       = (Ok (inl key), wa) →
       cko_KeyMetadata key = Some md →
       remote GetPublicKey_ CallGetPublicKey {| gpi_KeyId := km_KeyId md |} wa
       = (Ok (inr msg), wb) →
       GenerateKey req w = (Err (ErrGetPublicKey msg), wb)
       ∧ entries (plugin wb) = entries (plugin w)
       ∧ calls wb
         = (calls w ++ [CallCreateKey (create_input (plugin w) (gkr_KeyId req) keySpec);
                        CallGetPublicKey {| gpi_KeyId := km_KeyId md |}])%list).
Proof.
  intros Hid Hks.
  assert (Hty : gkr_KeyType req ≠ KeyType_UNSPECIFIED_KEY_TYPE)
    by (intros E; rewrite E in Hks; discriminate Hks).
  rewrite (GenerateKey_steps req w Hid Hty). unfold createKey. rewrite Hks.
  unfold create_input, bind. split.
  - intros Hck. rewrite Hck. split; [reflexivity|].
    split; [apply (remote_frame _ _ _ _ _ _ Hck)|apply (remote_logged _ _ _ _ _ _ Hck)].
  - intros key md wb Hck Hmd Hgp. rewrite Hck, Hmd. unfold bind. rewrite Hgp.
    split; [reflexivity|].
    pose proof (remote_frame _ _ _ _ _ _ Hck) as (E1 & _).
    pose proof (remote_frame _ _ _ _ _ _ Hgp) as (E2 & _).
    split; [congruence|].
    apply remote_logged in Hck, Hgp. rewrite Hgp, Hck, <- app_assoc. reflexivity.
Qed.

(** X15. [GenerateKey] keeps the cache well formed, whatever it returns:
    when every entry had all its fields and was filed under the id of its
    public key before the call, so it is after it. *)
Theorem GenerateKey_keeps_cache_ok (req : GenerateKeyRequest) (w : World K) :
  cache_ok (entries (plugin w)) →
  cache_ok (entries (plugin (GenerateKey req w).2)).
Proof.
  intros Hok.
  destruct (GenerateKey req w) as [[resp|err|] w'] eqn:H; simpl.
  - apply GenerateKey_Ok_cache in H as (e & Hm & Hv & _ & pk & Hpk & Hk & _).
    intros k e' L. rewrite Hm in L.
    destruct (decide (gkr_KeyId req = k)) as [<-|Hne].
    + rewrite lookup_insert_eq in L. injection L as <-. split; [exact Hv|eauto].
    + rewrite lookup_insert_ne in L by exact Hne. exact (Hok k e' L).
  - pose proof (proj2 (failed_generation_keeps_cache req w)) as Hsame.
    rewrite H in Hsame. simpl in Hsame. rewrite Hsame; [exact Hok|discriminate].
  - pose proof (proj2 (failed_generation_keeps_cache req w)) as Hsame.
    rewrite H in Hsame. simpl in Hsame. rewrite Hsame; [exact Hok|discriminate].
Qed.

End GenerateMore.

(** The scripted plugin that holds "k1" has a well-formed cache. *)
Lemma holding_k1_ok (k : list Scripted.answer) :
  cache_ok (entries (plugin (Scenario.holding_k1 k))).
Proof.
  intros id e L. unfold Scenario.holding_k1, Scripted.configured in L. simpl in L.
  apply lookup_singleton_Some in L as [<- <-]. split.
  - intros [H|[H|[H|[H|(pk & Heq & [H|[H|H]])]]]]; try discriminate H;
      injection Heq as <-; discriminate H.
  - eexists. split; reflexivity.
Qed.

Lemma GenerateKey_rejects_early_witness :
  ∃ e, GenerateKey {| gkr_KeyId := "k1"; gkr_KeyType := KeyType_RSA_1024 |}
         (Scenario.holding_k1 [])
       = (Err e, Scenario.holding_k1 [])
       ∧ e = ErrUnsupportedKeyType1024.
Proof.
  destruct (GenerateKey_rejects_early
              {| gkr_KeyId := "k1"; gkr_KeyType := KeyType_RSA_1024 |}
              (Scenario.holding_k1 []))
    as (e & Hrun & _ & _ & H1024).
  - right. simpl. unfold supportedKeyTypes. intros H.
    repeat (apply elem_of_cons in H as [H|H]; [discriminate H|]).
    apply elem_of_nil in H. exact H.
  - exists e. split; [exact Hrun|]. apply H1024; [discriminate|reflexivity].
Defined.

Lemma GenerateKey_then_GetPublicKey_witness :
  ∃ pk w',
    GenerateKey Scripted.k1_request (Scenario.holding_k1 Scenario.rotate_script)
    = (Ok {| gkr_PublicKey := Some pk |}, w')
    ∧ Id pk = "k1" ∧ Type_ pk = KeyType_EC_P256 ∧ PkixData pk ≠ []
    ∧ GetPublicKey {| gpr_KeyId := "k1" |} w' = (Ok {| gpr_PublicKey := Some pk |}, w').
Proof.
  pose (w := Scenario.holding_k1 Scenario.rotate_script).
  pose (run := GenerateKey Scripted.k1_request w).
  pose (key := {| Id := "k1"; Type_ := KeyType_EC_P256; PkixData := Scripted.pkix |}).
  destruct (GenerateKey_then_GetPublicKey Scripted.k1_request w run.2
              {| gkr_PublicKey := Some key |})
    as (pk & Hpk & Hid & Hty & _ & Hbytes & Hget & _).
  - reflexivity.
  - injection Hpk as <-. exists key, run.2.
    split; [reflexivity|]. split; [exact Hid|]. split; [exact Hty|].
    split; [exact Hbytes|]. apply Hget. reflexivity.
Defined.

Lemma GenerateKey_calls_witness :
  ∃ w', GenerateKey Scripted.k1_request
          (Scenario.holding_k1 Scenario.rotate_script)
        = (Ok {| gkr_PublicKey := PublicKey (Scripted.an_entry "k1" "id-2") |}, w')
        ∧ calls w'
          = [CallCreateKey {| cki_Description := Some "SPIRE_SERVER_KEY/k1";
                              cki_KeyUsage := "SIGN_VERIFY";
                              cki_CustomerMasterKeySpec := "ECC_NIST_P256" |};
             CallGetPublicKey {| gpi_KeyId := Some "id-2" |};
             CallUpdateAlias {| uai_AliasName := Some "alias/SPIRE_SERVER_KEY/k1";
                                uai_TargetKeyId := Some "id-2" |}].
Proof.
  pose (w := Scenario.holding_k1 Scenario.rotate_script).
  pose (run := GenerateKey Scripted.k1_request w).
  destruct (GenerateKey_calls Scripted.k1_request w run.2
              {| gkr_PublicKey := PublicKey (Scripted.an_entry "k1" "id-1") |})
    as (e & keySpec & kid & Hks & L & Ha & Hcalls).
  - reflexivity.
  - exists run.2. split; reflexivity.
Defined.

Lemma GenerateKey_starts_deletion_witness :
  ∃ w', GenerateKey Scripted.k1_request
          (Scenario.holding_k1 Scenario.rotate_script)
        = (Ok {| gkr_PublicKey := PublicKey (Scripted.an_entry "k1" "id-1") |}, w')
        ∧ goroutines w' = [Scripted.an_entry "k1" "id-1"].
Proof.
  pose (w := Scenario.holding_k1 Scenario.rotate_script).
  pose (run := GenerateKey Scripted.k1_request w).
  pose proof (GenerateKey_starts_deletion Scripted.k1_request w run.2
                {| gkr_PublicKey := PublicKey (Scripted.an_entry "k1" "id-1") |}
                eq_refl) as Hgo.
  exists run.2. split; [reflexivity|]. rewrite Hgo. vm_compute. reflexivity.
Defined.

Lemma scheduleDelete_best_effort_witness :
  ∃ w', scheduleDelete (Scripted.an_entry "k1" "id-1")
          (Scripted.configured ∅ [Scripted.OnScheduleKeyDeletion (inr "throttled")])
        = (Ok tt, w')
        ∧ calls w'
          = [CallScheduleKeyDeletion {| skd_KeyId := Some "id-1";
                                        skd_PendingWindowInDays := Some 7%Z |}]
        ∧ entries (plugin w') = ∅
        ∧ keyPrefix (plugin w') = defaultKeyPrefix.
Proof.
  refine (scheduleDelete_best_effort (Scripted.an_entry "k1" "id-1")
            (Scripted.configured ∅ [Scripted.OnScheduleKeyDeletion (inr "throttled")])
            _).
  discriminate.
Defined.


Lemma GenerateKey_creation_failure_witness :
  ∃ wb,
    GenerateKey Scripted.k1_request (Scenario.holding_k1 Scenario.no_public_key_script)
    = (Err (ErrGetPublicKey "denied"), wb)
    ∧ entries (plugin wb) = {["k1" := Scripted.an_entry "k1" "id-1"]}
    ∧ length (calls wb) = 2%nat.
Proof.
  pose (w := Scenario.holding_k1 Scenario.no_public_key_script).
  pose (input := create_input (plugin w) "k1" CustomerMasterKeySpecEccNistP256).
  pose (r1 := remote CreateKey CallCreateKey input w).
  pose (md := {| km_KeyId := Some "id-2"; km_Enabled := true;
                 km_CustomerMasterKeySpec := CustomerMasterKeySpecEccNistP256 |}).
  pose (r2 := remote GetPublicKey_ CallGetPublicKey {| gpi_KeyId := Some "id-2" |} r1.2).
  destruct (GenerateKey_creation_failure Scripted.k1_request w r1.2
              CustomerMasterKeySpecEccNistP256 "denied")
    as (_ & Hsecond).
  - discriminate.
  - reflexivity.
  - destruct (Hsecond {| cko_KeyMetadata := Some md |} md r2.2)
      as (Hrun & Hcache & Hcalls).
    + reflexivity.
    + reflexivity.
    + reflexivity.
    + exists r2.2. split; [exact Hrun|]. split; [exact Hcache|].
      rewrite Hcalls. reflexivity.
Defined.

Lemma GenerateKey_keeps_cache_ok_witness :
  cache_ok (entries (plugin (GenerateKey Scripted.k1_request
                               (Scenario.holding_k1 Scenario.rotate_script)).2)).
Proof.
  exact (GenerateKey_keeps_cache_ok Scripted.k1_request
           (Scenario.holding_k1 Scenario.rotate_script)
           (holding_k1_ok Scenario.rotate_script)).
Defined.

(* ===================================================================== *)
(** ** Reconciliation: what it files, what it leaves                     *)
(* ===================================================================== *)

Section ReconcileMore.
Context {K : Type} `{!kmsClient K}.

Lemma keyTypeFromKeySpec_Ok_supported (spec : CustomerMasterKeySpec) (kt : KeyType) :
  keyTypeFromKeySpec spec = Ok kt → kt ∈ supportedKeyTypes.
Proof.
  unfold keyTypeFromKeySpec, supportedKeyTypes.
  repeat match goal with
  | |- context [if ?b then _ else _] => destruct b; [intros [= <-]; repeat constructor|]
  end.
  intros [=].
Qed.

Lemma setEntry_error_kind (spireKeyID : string) (e : keyEntry) (w w' : World K) err :
  setEntry spireKeyID e w = (Err err, w') →
  err ∈ [ErrSpireKeyIDRequired; ErrKMSKeyIDRequired; ErrAliasRequired;
         ErrPublicKeyRequired; ErrPublicKeyIdRequired; ErrPublicKeyTypeRequired;
         ErrPkixDataRequired]
  ∧ (spireKeyID = "" → err = ErrSpireKeyIDRequired).
Proof.
  unfold setEntry, throw.
  destruct (String.eqb_spec spireKeyID "") as [E|N];
    [intros [= <- _]; split; [repeat constructor|reflexivity]|].
  repeat match goal with
  | |- context [if ?b then _ else _] =>
      destruct b; [intros [= <- _]; split; [repeat constructor|contradiction]|]
  | |- context [match PublicKey e with _ => _ end] =>
      destruct (PublicKey e);
      [|intros [= <- _]; split; [repeat constructor|contradiction]]
  end.
  intros [=].
Qed.

(** What [buildKeyEntry] leaves untouched, and what an entry it builds is
    made of. *)
Lemma buildKeyEntry_inv (alias target : string) (w w' : World K) r :
  buildKeyEntry alias target w = (r, w') →
  entries (plugin w') = entries (plugin w)
  ∧ keyPrefix (plugin w') = keyPrefix (plugin w)
  ∧ goroutines w' = goroutines w
  ∧ (∀ e, r = Ok (Some e) →
          ∃ id kt data,
            spireKeyIDFromAlias (plugin w) alias = Ok id
            ∧ kt ∈ supportedKeyTypes
            ∧ e = {| KMSKeyID := target; Alias := alias;
                     PublicKey := Some {| Id := id; Type_ := kt; PkixData := data |} |}).
Proof.
  unfold buildKeyEntry, bind.
  destruct (remote DescribeKey CallDescribeKey _ w) as [[[resp|msg]|err|] w1] eqn:Hd;
    pose proof (remote_frame _ _ _ _ _ _ Hd) as (E1 & P1 & _ & G1);
    try (intros [= <- <-]; repeat split; auto; intros ? [=]; fail).
  destruct (dko_KeyMetadata resp) as [md|];
    [|intros [= <- <-]; repeat split; auto; intros ? [=]].
  destruct (km_Enabled md); simpl;
    [|intros [= <- <-]; repeat split; auto; intros ? [=]].
  rewrite (spireKeyIDFromAlias_ext (plugin w1) (plugin w) alias P1).
  destruct (spireKeyIDFromAlias (plugin w) alias) as [id|err|] eqn:Hid;
    try (intros [= <- <-]; repeat split; auto; intros ? [=]; fail).
  destruct (keyTypeFromKeySpec (km_CustomerMasterKeySpec md)) as [kt|err|] eqn:Hkt;
    try (intros [= <- <-]; repeat split; auto; intros ? [=]; fail).
  unfold bind.
  destruct (remote GetPublicKey_ CallGetPublicKey _ w1) as [[[pub|msg]|err|] w2] eqn:Hg;
    pose proof (remote_frame _ _ _ _ _ _ Hg) as (E2 & P2 & _ & G2);
    try (intros [= <- <-]; repeat split; try congruence; intros ? [=]; fail).
  intros [= <- <-]. repeat split; try congruence.
  intros e [= <-]. exists id, kt, (gpo_PublicKey pub).
  split; [reflexivity|]. split; [exact (keyTypeFromKeySpec_Ok_supported _ _ Hkt)|].
  reflexivity.
Qed.

Lemma reconciled_ext (p p' : Plugin K) (k : string) (e : keyEntry) :
  keyPrefix p = keyPrefix p' → reconciled p k e → reconciled p' k e.
Proof.
  intros Hp (Hv & Hd & Hpk). split; [exact Hv|]. split; [|exact Hpk].
  rewrite <- (spireKeyIDFromAlias_ext p p' _ Hp). exact Hd.
Qed.

(** One listed alias: the prefix and the goroutines stay, and an entry of
    the cache afterwards was there before or is one that reconciliation
    filed. *)
Lemma processAlias_inv (a : AliasListEntry) (w w' : World K) r :
  processAlias a w = (r, w') →
  keyPrefix (plugin w') = keyPrefix (plugin w)
  ∧ goroutines w' = goroutines w
  ∧ ∀ k e, entries (plugin w') !! k = Some e →
           entries (plugin w) !! k = Some e ∨ reconciled (plugin w) k e.
Proof.
  unfold processAlias.
  destruct (AliasName a) as [alias|]; [|intros [= <- <-]; auto].
  destruct (TargetKeyId a) as [target|]; [|intros [= <- <-]; auto].
  destruct (buildKeyEntry alias target w) as [[[e|]|err|] w1] eqn:Hb;
    pose proof (buildKeyEntry_inv _ _ _ _ _ Hb) as (E1 & P1 & G1 & Hbuilt);
    try (intros [= <- <-]; repeat split; auto; intros k e' L; left; congruence).
  destruct (Hbuilt e eq_refl) as (id & kt & data & Hid & Hkt & ->). simpl.
  destruct (setEntry id _ w1) as [[[]|err|] w2] eqn:Hs.
  - pose proof (setEntry_Ok_valid _ _ _ _ Hs) as Hv.
    apply setEntry_Ok_inv in Hs. subst w2. intros [= <- <-]. simpl.
    repeat split; auto. intros k e' L. rewrite E1 in L.
    destruct (decide (id = k)) as [<-|Hne].
    + rewrite lookup_insert_eq in L. injection L as <-. right.
      split; [exact Hv|]. split; [exact Hid|]. eexists. repeat split. exact Hkt.
    + rewrite lookup_insert_ne in L by exact Hne. left. exact L.
  - pose proof (setEntry_frame _ _ _ _ _ Hs) as (_ & P2 & _ & G2 & Hsame).
    rewrite (Hsame ltac:(discriminate)). intros [= <- <-].
    repeat split; auto. intros k e' L. left. congruence.
  - pose proof (setEntry_frame _ _ _ _ _ Hs) as (_ & P2 & _ & G2 & Hsame).
    rewrite (Hsame ltac:(discriminate)). intros [= <- <-].
    repeat split; auto. intros k e' L. left. congruence.
Qed.

Lemma rangeAliases_inv (l : list AliasListEntry) (w w' : World K) r :
  rangeAliases l w = (r, w') →
  keyPrefix (plugin w') = keyPrefix (plugin w)
  ∧ goroutines w' = goroutines w
  ∧ ∀ k e, entries (plugin w') !! k = Some e →
           entries (plugin w) !! k = Some e ∨ reconciled (plugin w) k e.
Proof.
  revert w. induction l as [|a l IH]; intros w; simpl.
  - intros [= <- <-]. auto.
  - unfold bind.
    destruct (processAlias a w) as [[[]|err|] w1] eqn:Hp;
      pose proof (processAlias_inv _ _ _ _ Hp) as (P1 & G1 & H1);
      try (intros [= <- <-]; auto; fail).
    intros Hrest. destruct (IH _ Hrest) as (P2 & G2 & H2).
    split; [congruence|]. split; [congruence|].
    intros k e L. destruct (H2 k e L) as [L1|Hr]; [apply H1, L1|].
    right. apply (reconciled_ext (plugin w1)); assumption.
Qed.

Lemma fetchAliasesPage_inv (marker : option string) (w w' : World K) r :
  fetchAliasesPage marker w = (r, w') →
  keyPrefix (plugin w') = keyPrefix (plugin w)
  ∧ goroutines w' = goroutines w
  ∧ ∀ k e, entries (plugin w') !! k = Some e →
           entries (plugin w) !! k = Some e ∨ reconciled (plugin w) k e.
Proof.
  unfold fetchAliasesPage, bind.
  destruct (remote ListAliases CallListAliases _ w) as [[[resp|msg]|err|] w1] eqn:Hl;
    pose proof (remote_frame _ _ _ _ _ _ Hl) as (E1 & P1 & _ & G1);
    try (intros [= <- <-]; repeat split; auto; intros k e L; left; congruence).
  destruct (rangeAliases (Aliases resp) w1) as [[[]|err|] w2] eqn:Hr;
    pose proof (rangeAliases_inv _ _ _ _ Hr) as (P2 & G2 & H2);
    intros [= <- <-]; (split; [congruence|]); (split; [congruence|]);
    intros k e L; (destruct (H2 k e L) as [L1|Hrec];
      [left; congruence|right; apply (reconciled_ext (plugin w1)); assumption]).
Qed.

Lemma fetchAllPages_inv (fuel : nat) (marker : option string) (w w' : World K) r :
  fetchAllPages fuel marker w = Some (r, w') →
  keyPrefix (plugin w') = keyPrefix (plugin w)
  ∧ goroutines w' = goroutines w
  ∧ ∀ k e, entries (plugin w') !! k = Some e →
           entries (plugin w) !! k = Some e ∨ reconciled (plugin w) k e.
Proof.
  revert marker w. induction fuel as [|fuel IH]; intros marker w; simpl; [intros [=]|].
  destruct (fetchAliasesPage marker w) as [[[m|]|err|] w1] eqn:Hp;
    pose proof (fetchAliasesPage_inv _ _ _ _ Hp) as (P1 & G1 & H1);
    try (intros [= <- <-]; auto; fail).
  intros Hrest. destruct (IH _ _ Hrest) as (P2 & G2 & H2).
  split; [congruence|]. split; [congruence|].
  intros k e L. destruct (H2 k e L) as [L1|Hr]; [apply H1, L1|].
  right. apply (reconciled_ext (plugin w1)); assumption.
Qed.

(** X16. The listing loop passes over records without an alias name or
    without a target key id: a page runs as the page of its complete
    records alone does, calls and cache alike. *)
Theorem rangeAliases_ignores_incomplete (l : list AliasListEntry) (w : World K) :
  rangeAliases l w = rangeAliases (List.filter complete l) w.
Proof.
  revert w. induction l as [|a l IH]; intros w; [reflexivity|].
  cbn [List.filter rangeAliases]. unfold complete at 1.
  destruct (AliasName a) as [alias|] eqn:Ea; [destruct (TargetKeyId a) as [t|] eqn:Et|].
  - cbn [rangeAliases]. unfold bind.
    destruct (processAlias a w) as [[[]|err|] w1]; [apply IH|reflexivity|reflexivity].
  - unfold bind, processAlias. rewrite Ea, Et. simpl. apply IH.
  - unfold bind, processAlias. rewrite Ea. simpl. apply IH.
Qed.

Variable hcl_Decode : string → Config + string.

Lemma Configure_inv (fuel : nat) (req : ConfigureRequest) (config : Config)
    (w w' : World K) r :
  validateConfig hcl_Decode (Configuration req) = Ok config →
  Configure hcl_Decode fuel req w = Some (r, w') →
  keyPrefix (plugin w') = KeyPrefix config
  ∧ goroutines w' = goroutines w
  ∧ ∀ k e, entries (plugin w') !! k = Some e →
           entries (plugin w) !! k = Some e ∨ reconciled (plugin w') k e.
Proof.
  intros Hv. unfold Configure. rewrite Hv. simpl.
  destruct (hooks_newClient (plugin w) config) as [c [msg|]].
  - intros [= <- <-]. simpl. auto.
  - intros Hloop. apply fetchAllPages_inv in Hloop as (P & G & H). simpl in *.
    split; [exact P|]. split; [exact G|].
    intros k e L. destruct (H k e L) as [L1|Hr]; [left; exact L1|].
    right. eapply reconciled_ext; [|exact Hr]. rewrite P. reflexivity.
Qed.

(** X17. A configuration that does not parse, or that names no region,
    makes [Configure] fail at once: no client is created, no call is issued,
    and the plugin (prefix, client and cache) is as it was. *)
Theorem Configure_invalid_config (fuel : nat) (req : ConfigureRequest) (w : World K) :
  (∀ msg, hcl_Decode (Configuration req) = inr msg →
          Configure hcl_Decode fuel req w = Some (Err (ErrDecodeConfig msg), w))
  ∧ (∀ cfg, hcl_Decode (Configuration req) = inl cfg → Region cfg = "" →
            Configure hcl_Decode fuel req w = Some (Err ErrMissingRegion, w)).
Proof.
  unfold Configure, validateConfig. split.
  - intros msg ->. reflexivity.
  - intros cfg -> ->. reflexivity.
Qed.

(** X18. When the client hook fails, [Configure] fails with "failed to
    create KMS client" without a call to the service and with the cache as
    it was; the key prefix is already the one of the new configuration and
    the client is what the hook returned, the former client being gone. *)
Theorem Configure_client_failure (fuel : nat) (req : ConfigureRequest)
    (config : Config) (w : World K) (c : option K) (msg : string) :
  validateConfig hcl_Decode (Configuration req) = Ok config →
  hooks_newClient (plugin w) config = (c, Some msg) →
  ∃ w', Configure hcl_Decode fuel req w = Some (Err (ErrCreateClient msg), w')
        ∧ keyPrefix (plugin w') = KeyPrefix config
        ∧ client (plugin w') = c
        ∧ entries (plugin w') = entries (plugin w)
        ∧ calls w' = calls w
        ∧ goroutines w' = goroutines w.
Proof.
  intros Hv Hc. unfold Configure. rewrite Hv. simpl. rewrite Hc.
  eexists. split; [reflexivity|]. simpl. auto.
Qed.

(** X19. Once the configuration is accepted, the key prefix of the plugin
    is the configured one, or "SPIRE_SERVER_KEY/" when none is configured,
    and never empty, however [Configure] ends; and [Configure] starts no
    goroutine. *)
Theorem Configure_sets_prefix (fuel : nat) (req : ConfigureRequest)
    (cfg : Config) (w w' : World K) r :
  hcl_Decode (Configuration req) = inl cfg →
  Region cfg ≠ "" →
  Configure hcl_Decode fuel req w = Some (r, w') →
  keyPrefix (plugin w')
  = (if String.eqb (KeyPrefix cfg) "" then defaultKeyPrefix else KeyPrefix cfg)
  ∧ keyPrefix (plugin w') ≠ ""
  ∧ goroutines w' = goroutines w.
Proof.
  intros Hd Hr Hrun.
  assert (Hv : ∃ config, validateConfig hcl_Decode (Configuration req) = Ok config
                         ∧ KeyPrefix config
                           = if String.eqb (KeyPrefix cfg) "" then defaultKeyPrefix
                             else KeyPrefix cfg).
  { unfold validateConfig. rewrite Hd, (eqb_empty_false _ Hr).
    destruct (String.eqb (KeyPrefix cfg) ""); eexists; split; reflexivity. }
  destruct Hv as (config & Hv & Hp).
  destruct (Configure_inv fuel req config w w' r Hv Hrun) as (P & G & _).
  split; [congruence|]. split; [|exact G].
  rewrite P. apply (validateConfig_prefix hcl_Decode _ _ Hv).
Qed.

(** X20. When the first listing call fails, [Configure] fails with "failed
    to fetch keys"; that call is the only one issued and the cache is as it
    was. *)
Theorem Configure_listing_failure (fuel : nat) (req : ConfigureRequest)
    (config : Config) (w w' : World K) (msg : string) :
  validateConfig hcl_Decode (Configuration req) = Ok config →
  (hooks_newClient (plugin w) config).2 = None →
  remote ListAliases CallListAliases {| lai_Marker := None |} (configured_for config w)
  = (Ok (inr msg), w') →
  Configure hcl_Decode (S fuel) req w = Some (Err (ErrFetchKeys msg), w')
  ∧ calls w' = (calls w ++ [CallListAliases {| lai_Marker := None |}])%list
  ∧ entries (plugin w') = entries (plugin w).
Proof.
  intros Hv Hc Hl.
  rewrite (Configure_runs_loop hcl_Decode (S fuel) req config w Hv Hc). simpl.
  unfold fetchAliasesPage, bind. rewrite Hl. split; [reflexivity|].
  split; [apply (remote_logged _ _ _ _ _ _ Hl)|apply (remote_frame _ _ _ _ _ _ Hl)].
Qed.

(** X21. An entry that reconciliation builds and [setEntry] refuses ends
    [Configure] with the error of [setEntry] itself, not wrapped as a
    failure to process the key; so an enabled key of a supported spec whose
    alias is exactly "alias/" + prefix, with no key id after it, fails the
    configuration with "spireKeyID is required" instead of being passed
    over. *)
Theorem reconcile_refused_entry_aborts (req : ConfigureRequest) (config : Config)
    (w_init w w1 w2 : World K) (alias target : string) (rest : list AliasListEntry)
    (md : KeyMetadata) (id : string) (kt : KeyType) (pub : GetPublicKeyOutput) :
  validateConfig hcl_Decode (Configuration req) = Ok config →
  (hooks_newClient (plugin w_init) config).2 = None →
  reaches None (configured_for config w_init) (listed alias target) rest w →
  describes w alias md w1 →
  km_Enabled md = true →
  spireKeyIDFromAlias (plugin w) alias = Ok id →
  keyTypeFromKeySpec (km_CustomerMasterKeySpec md) = Ok kt →
  remote GetPublicKey_ CallGetPublicKey {| gpi_KeyId := Some alias |} w1
  = (Ok (inl pub), w2) →
  missing_field id {| KMSKeyID := target; Alias := alias;
                      PublicKey := Some {| Id := id; Type_ := kt;
                                           PkixData := gpo_PublicKey pub |} |} →
  ∃ e n,
    (∀ fuel, (n ≤ fuel)%nat →
             Configure hcl_Decode fuel req w_init = Some (Err e, w2))
    ∧ e ∈ [ErrSpireKeyIDRequired; ErrKMSKeyIDRequired; ErrAliasRequired;
           ErrPublicKeyRequired; ErrPublicKeyIdRequired; ErrPublicKeyTypeRequired;
           ErrPkixDataRequired]
    ∧ (id = "" → e = ErrSpireKeyIDRequired)
    ∧ entries (plugin w2) = entries (plugin w).
Proof.
  intros Hv Hc Hreach Hd En Hid Hkt Hg Hm.
  pose proof (buildKeyEntry_built alias target w w1 w2 md id kt pub Hd En Hid Hkt Hg)
    as Hb.
  destruct (setEntry_rejects id _ w2 Hm) as [e Hs].
  destruct (setEntry_error_kind _ _ _ _ _ Hs) as (Hkind & Hempty).
  assert (Hfail : rangeAliases (listed alias target :: rest) w = (Err e, w2)).
  { simpl. unfold bind, processAlias. simpl. rewrite Hb. simpl. rewrite Hs.
    reflexivity. }
  destruct (reaches_abort _ _ _ _ _ _ _ Hreach Hfail) as [n Hn].
  exists e, n. split.
  - intros fuel Hle.
    rewrite (Configure_runs_loop hcl_Decode fuel req config w_init Hv Hc).
    apply Hn, Hle.
  - split; [exact Hkind|]. split; [exact Hempty|].
    pose proof (buildKeyEntry_inv _ _ _ _ _ Hb) as (E & _). exact E.
Qed.

(** X22. Whatever [Configure] returns once the configuration is accepted,
    an entry of the cache afterwards either was in the cache before the
    call, unchanged, or was filed by this reconciliation: all its fields are
    present, its alias decodes under the configured prefix to the key id it
    is filed under, which is the id of its public key, and its key type is
    one of the four supported ones. *)
Theorem Configure_entries_origin (fuel : nat) (req : ConfigureRequest)
    (config : Config) (w w' : World K) r :
  validateConfig hcl_Decode (Configuration req) = Ok config →
  Configure hcl_Decode fuel req w = Some (r, w') →
  ∀ k e, entries (plugin w') !! k = Some e →
         entries (plugin w) !! k = Some e ∨ reconciled (plugin w') k e.
Proof.
  intros Hv Hrun. apply (Configure_inv fuel req config w w' r Hv Hrun).
Qed.

(** X23. [Configure] keeps the cache well formed, however it ends: when
    every entry had all its fields and was filed under the id of its public
    key before the call, so it is after it. *)
Theorem Configure_keeps_cache_ok (fuel : nat) (req : ConfigureRequest)
    (w w' : World K) r :
  Configure hcl_Decode fuel req w = Some (r, w') →
  cache_ok (entries (plugin w)) →
  cache_ok (entries (plugin w')).
Proof.
  intros Hrun Hok.
  destruct (validateConfig hcl_Decode (Configuration req)) as [config|err|] eqn:Hv.
  - intros k e L.
    destruct (proj2 (proj2 (Configure_inv fuel req config w w' r Hv Hrun)) k e L)
      as [L0|(Hvalid & _ & pk & Hpk & Hk & _)]; [exact (Hok k e L0)|].
    split; [exact Hvalid|eauto].
  - unfold Configure in Hrun. rewrite Hv in Hrun. injection Hrun as _ <-. exact Hok.
  - unfold Configure in Hrun. rewrite Hv in Hrun. injection Hrun as _ <-. exact Hok.
Qed.

(** X24. No operation takes a key id out of the cache: a key id the cache
    holds is still held after any [GenerateKey] call and after any
    [Configure] call, failed ones included. *)
Theorem cache_never_shrinks (w : World K) (k : string) :
  is_Some (entries (plugin w) !! k) →
  (∀ req, is_Some (entries (plugin (GenerateKey req w).2) !! k))
  ∧ (∀ fuel req r w', Configure hcl_Decode fuel req w = Some (r, w') →
                      is_Some (entries (plugin w') !! k)).
Proof.
  intros Hk. split.
  - intros req. destruct (GenerateKey req w) as [[resp|err|] w'] eqn:H; simpl.
    + apply GenerateKey_Ok_cache in H as (e & -> & _).
      destruct (decide (gkr_KeyId req = k)) as [<-|Hne].
      * rewrite lookup_insert_eq. eauto.
      * rewrite lookup_insert_ne by exact Hne. exact Hk.
    + pose proof (proj2 (failed_generation_keeps_cache req w)) as Hsame.
      rewrite H in Hsame. simpl in Hsame. rewrite Hsame; [exact Hk|discriminate].
    + pose proof (proj2 (failed_generation_keeps_cache req w)) as Hsame.
      rewrite H in Hsame. simpl in Hsame. rewrite Hsame; [exact Hk|discriminate].
  - intros fuel req r w' Hrun.
    rewrite <- (carry_emptied w), Configure_carry in Hrun.
    destruct (Configure hcl_Decode fuel req (emptied w)) as [[r0 adm]|];
      [|discriminate Hrun].
    injection Hrun as _ <-.
    change (entries (plugin (carry (entries (plugin w)) adm)))
      with (entries (plugin adm) ∪ entries (plugin w)).
    apply lookup_union_is_Some. right. exact Hk.
Qed.

End ReconcileMore.

(* ===================================================================== *)
(** ** Alias codec: what decoding accepts and what it returns            *)
(* ===================================================================== *)

Section StringsMore.
Implicit Types s t sep : string.

Lemma string_take_drop n s : string_take n s +:+ string_drop n s = s.
Proof.
  revert s. induction n as [|n IH]; intros [|c s]; simpl; try reflexivity.
  rewrite string_app_cons, IH. reflexivity.
Qed.

Lemma prefix_split sep t :
  String.prefix sep t = true → t = sep +:+ string_drop (String.length sep) t.
Proof.
  revert t. induction sep as [|c sep IH]; intros t; [reflexivity|].
  destruct t as [|d t]; simpl; [intros [=]|].
  destruct (ascii_dec c d) as [<-|]; [|intros [=]].
  intros H. rewrite string_app_cons, <- (IH t H). reflexivity.
Qed.

Lemma Index_split s sep m :
  Index s sep = Some m →
  s = string_take m s +:+ sep +:+ string_drop (m + String.length sep) s.
Proof.
  intros H. apply Index_Some_occurs, elem_of_occurrences in H as [_ Hp].
  apply prefix_split in Hp. rewrite string_drop_drop in Hp.
  rewrite <- Hp. symmetry. apply string_take_drop.
Qed.

Lemma genSplit_loop_nonempty k s sep n : genSplit_loop k s sep n ≠ [].
Proof.
  destruct k; simpl; [discriminate|]. destruct (Index s sep); discriminate.
Qed.

(** With enough fuel for the count, the loop gives one token more than
    there are separators. *)
Lemma genSplit_loop_length sep n fuel s :
  sep ≠ "" → (String.length s < fuel)%nat →
  length (genSplit_loop (Count_from fuel s sep) s sep n) = S (Count_from fuel s sep).
Proof.
  intros Hsep. revert s. induction fuel as [|fuel IH]; intros s Hl; [lia|].
  cbn [Count_from]. destruct (Index s sep) as [i|] eqn:Ei; [|reflexivity].
  cbn [genSplit_loop]. rewrite Ei. cbn [length]. f_equal. apply IH.
  apply Index_Some_bound in Ei. rewrite string_drop_length.
  assert (0 < String.length sep)%nat by (destruct sep; [contradiction|simpl; lia]).
  lia.
Qed.

Lemma SplitAfter_length s sep :
  sep ≠ "" → length (SplitAfter s sep) = S (Count s sep).
Proof.
  intros Hsep. unfold SplitAfter, genSplit, Count.
  rewrite (eqb_empty_false _ Hsep). apply genSplit_loop_length; [exact Hsep|lia].
Qed.

End StringsMore.

Section CodecMore.
Context {K : Type} `{!kmsClient K}.

Lemma spireKeyIDFromAlias_Ok_inv (p : Plugin K) (alias id : string) :
  keyPrefix p ≠ "" →
  spireKeyIDFromAlias p alias = Ok id →
  ∃ m, Index alias (keyPrefix p) = Some m
       ∧ Index (string_drop (m + String.length (keyPrefix p)) alias) (keyPrefix p) = None
       ∧ id = string_drop (m + String.length (keyPrefix p)) alias.
Proof.
  intros Hne. unfold spireKeyIDFromAlias, SplitAfter, genSplit, Count.
  rewrite (eqb_empty_false _ Hne). cbn [Count_from].
  destruct (Index alias (keyPrefix p)) as [m|] eqn:Em; [|intros [=]].
  cbn [genSplit_loop]. rewrite Em.
  assert (Hlen : ∃ f, String.length alias = S f).
  { apply Index_Some_bound in Em. destruct (String.length alias) as [|f]; [|eauto].
    destruct (keyPrefix p); [contradiction|simpl in Em; lia]. }
  destruct Hlen as [f Hf]. rewrite Hf.
  match goal with
  | |- context [genSplit_loop ?k ?s ?sep ?n] =>
      destruct (genSplit_loop_shape k s sep n) as [E|(t & t' & l & E)]
  end.
  - rewrite E. simpl. intros [= <-]. exists m. split; [reflexivity|].
    split; [|reflexivity].
    destruct (Index (string_drop _ alias) (keyPrefix p)) as [j|] eqn:Ej; [|reflexivity].
    exfalso. cbn [Count_from genSplit_loop] in E. rewrite Ej in E.
    cbn [genSplit_loop] in E. rewrite Ej in E. injection E as _ E.
    exact (genSplit_loop_nonempty _ _ _ _ E).
  - rewrite E. simpl. intros [=].
Qed.

(** X25. For a fixed key prefix the alias and the description determine
    the key id: two key ids have the same alias, or the same description,
    only if they are the same id. *)
Theorem aliasFromSpireKeyID_injective (p : Plugin K) (a b : string) :
  (aliasFromSpireKeyID p a = aliasFromSpireKeyID p b ↔ a = b)
  ∧ (descriptionFromSpireKeyID p a = descriptionFromSpireKeyID p b ↔ a = b).
Proof.
  unfold aliasFromSpireKeyID, descriptionFromSpireKeyID. split; split.
  - intros H. apply (inj (String.app _)) in H. apply (inj (String.app _)) in H.
    exact H.
  - intros ->. reflexivity.
  - intros H. apply (inj (String.app _)) in H. exact H.
  - intros ->. reflexivity.
Qed.

(** X26. What decoding returns is what follows the prefix: when an alias
    decodes to a key id under a non-empty prefix, the alias is some text,
    then the prefix, then the id, and the id itself does not contain the
    prefix. *)
Theorem spireKeyIDFromAlias_sound (p : Plugin K) (alias id : string) :
  keyPrefix p ≠ "" →
  spireKeyIDFromAlias p alias = Ok id →
  (∃ before, alias = before +:+ keyPrefix p +:+ id)
  ∧ ¬ contains id (keyPrefix p).
Proof.
  intros Hne Hdec.
  destruct (spireKeyIDFromAlias_Ok_inv p alias id Hne Hdec) as (m & Hm & Hrest & ->).
  split.
  - exists (string_take m alias). apply Index_split. exact Hm.
  - unfold contains. apply Index_None in Hrest. rewrite Hrest. tauto.
Qed.

(** X27. Under a non-empty prefix, decoding succeeds exactly on the
    aliases in which [strings.Count] finds the prefix once; every other
    alias, one without the prefix above all, is answered with "alias does
    not contain the prefix", never with a panic. *)
Theorem spireKeyIDFromAlias_count (p : Plugin K) (alias : string) :
  keyPrefix p ≠ "" →
  (Count alias (keyPrefix p) = 1%nat ↔ ∃ id, spireKeyIDFromAlias p alias = Ok id)
  ∧ (Count alias (keyPrefix p) ≠ 1%nat →
     spireKeyIDFromAlias p alias = Err (ErrAliasWithoutPrefix (keyPrefix p)))
  ∧ (¬ contains alias (keyPrefix p) → Count alias (keyPrefix p) = 0%nat).
Proof.
  intros Hne. pose proof (SplitAfter_length alias (keyPrefix p) Hne) as Hlen.
  assert (Hno : Count alias (keyPrefix p) ≠ 1%nat →
                spireKeyIDFromAlias p alias = Err (ErrAliasWithoutPrefix (keyPrefix p))).
  { intros Hc. unfold spireKeyIDFromAlias. rewrite Hlen.
    destruct (Nat.eqb_spec (S (Count alias (keyPrefix p))) 2) as [E|_]; [lia|].
    reflexivity. }
  split; [split|split; [exact Hno|]].
  - intros Hc. unfold spireKeyIDFromAlias. rewrite Hlen, Hc. simpl.
    rewrite Hc in Hlen.
    destruct (SplitAfter alias (keyPrefix p)) as [|t0 [|t1 l]]; try discriminate Hlen.
    exists t1. reflexivity.
  - intros [id Hid]. destruct (decide (Count alias (keyPrefix p) = 1%nat)) as [|Hc];
      [assumption|]. rewrite (Hno Hc) in Hid. discriminate Hid.
  - intros Hnc. unfold Count. rewrite (eqb_empty_false _ Hne). cbn [Count_from].
    assert (E : Index alias (keyPrefix p) = None).
    { apply Index_None. unfold contains in Hnc.
      destruct (occurrences alias (keyPrefix p)); [reflexivity|].
      exfalso. apply Hnc. discriminate. }
    rewrite E. reflexivity.
Qed.

(** X28. A plugin that has not been configured holds no key: it lists no
    public key, and it answers [GetPublicKey], and [SignData] when signer
    options are given, with "no such key" for every key id; [GenerateKey], for a request it would accept,
    panics on the missing client instead of returning an error. *)
Theorem unconfigured_plugin (newClient : Config → option K * option string) :
  entries (plugin (newWorld newClient)) = ∅
  ∧ GetPublicKeys (newWorld newClient)
    = (Ok {| gpr_PublicKeys := [] |}, newWorld newClient)
  ∧ (∀ req, gpr_KeyId req ≠ "" →
            GetPublicKey req (newWorld newClient)
            = (Err (ErrNoSuchKey (gpr_KeyId req)), newWorld newClient))
  ∧ (∀ req, sdr_KeyId req ≠ "" → sdr_SignerOpts req ≠ None →
            SignData req (newWorld newClient)
            = (Err (ErrNoSuchKey (sdr_KeyId req)), newWorld newClient))
  ∧ (∀ req, gkr_KeyId req ≠ "" → gkr_KeyType req ∈ supportedKeyTypes →
            GenerateKey req (newWorld newClient) = (Panic, newWorld newClient)).
Proof.
  split; [reflexivity|]. split.
  { unfold GetPublicKeys. simpl. rewrite map_to_list_empty. reflexivity. }
  split.
  { intros req Hid. unfold GetPublicKey. rewrite (eqb_empty_false _ Hid).
    unfold bind, entry. simpl. rewrite lookup_empty. reflexivity. }
  split.
  { intros req Hid Hopts. unfold SignData. rewrite (eqb_empty_false _ Hid).
    destruct (sdr_SignerOpts req); [|contradiction].
    unfold bind, entry. simpl. rewrite lookup_empty. reflexivity. }
  intros req Hid Hty.
  destruct (keySpecFromKeyType_supported _ Hty) as (spec & Hks & _).
  assert (Hne : gkr_KeyType req ≠ KeyType_UNSPECIFIED_KEY_TYPE)
    by (intros E; rewrite E in Hks; discriminate Hks).
  rewrite (GenerateKey_steps req _ Hid Hne). unfold createKey. rewrite Hks.
  reflexivity.
Qed.

End CodecMore.

Lemma singleton_cache_ok (id kms : string) :
  id ≠ "" → kms ≠ "" → cache_ok {[id := Scripted.an_entry id kms]}.
Proof.
  intros Hid Hkms k e L. apply lookup_singleton_Some in L as [<- <-]. split.
  - intros [H|[H|[H|[H|(pk & Heq & [H|[H|H]])]]]]; try contradiction;
      try discriminate H.
    + injection Heq as <-. contradiction.
    + injection Heq as <-. discriminate H.
    + injection Heq as <-. discriminate H.
  - eexists. split; reflexivity.
Qed.

Lemma Configure_client_failure_witness :
  ∃ w', Configure Scripted.decode 3 Scripted.region_request Scenario.without_client
        = Some (Err (ErrCreateClient "no credentials"), w')
        ∧ keyPrefix (plugin w') = "SPIRE_SERVER_KEY/"
        ∧ client (plugin w') = None
        ∧ entries (plugin w') = entries (plugin Scenario.without_client)
        ∧ calls w' = []
        ∧ goroutines w' = [].
Proof.
  refine (Configure_client_failure Scripted.decode 3 Scripted.region_request
            Scripted.region_config Scenario.without_client None "no credentials" _ _);
    reflexivity.
Defined.

Lemma Configure_sets_prefix_witness :
  keyPrefix (plugin (from_option snd Scripted.holding_old
                       (Configure Scripted.decode 1 Scripted.region_request
                          Scripted.holding_old)))
  = "SPIRE_SERVER_KEY/"
  ∧ keyPrefix (plugin (from_option snd Scripted.holding_old
                         (Configure Scripted.decode 1 Scripted.region_request
                            Scripted.holding_old))) ≠ ""
  ∧ goroutines (from_option snd Scripted.holding_old
                  (Configure Scripted.decode 1 Scripted.region_request
                     Scripted.holding_old)) = [].
Proof.
  refine (Configure_sets_prefix Scripted.decode 1 Scripted.region_request
            {| AccessKeyID := ""; SecretAccessKey := ""; Region := "us-east-1";
               KeyPrefix := "" |}
            Scripted.holding_old _ (Ok tt) _ _ _).
  - reflexivity.
  - discriminate.
  - reflexivity.
Defined.

Lemma Configure_listing_failure_witness :
  ∃ w', Configure Scripted.decode 1 Scripted.region_request
          (Scripted.configured ∅ [Scripted.OnListAliases (inr "timeout")])
        = Some (Err (ErrFetchKeys "timeout"), w')
        ∧ calls w' = [CallListAliases {| lai_Marker := None |}]
        ∧ entries (plugin w') = ∅.
Proof.
  pose (w := Scripted.configured ∅ [Scripted.OnListAliases (inr "timeout")]).
  pose (r := remote ListAliases CallListAliases {| lai_Marker := None |}
               (configured_for Scripted.region_config w)).
  destruct (Configure_listing_failure Scripted.decode 0 Scripted.region_request
              Scripted.region_config w r.2 "timeout")
    as (Hrun & Hcalls & Hcache); try reflexivity.
  exists r.2. split; [exact Hrun|]. split; [exact Hcalls|exact Hcache].
Defined.

Lemma reconcile_refused_entry_aborts_witness :
  ∃ n w2, ∀ fuel, (n ≤ fuel)%nat →
    Configure Scripted.decode fuel Scripted.region_request
      (Scripted.configured ∅ Scenario.empty_id_script)
    = Some (Err ErrSpireKeyIDRequired, w2).
Proof.
  pose (w := Scripted.first_page_listed Scenario.empty_id_script).
  pose (d := remote DescribeKey CallDescribeKey
               {| dki_KeyId := Some "alias/SPIRE_SERVER_KEY/" |} w).
  pose (g := remote GetPublicKey_ CallGetPublicKey
               {| gpi_KeyId := Some "alias/SPIRE_SERVER_KEY/" |} d.2).
  destruct (reconcile_refused_entry_aborts Scripted.decode Scripted.region_request
              Scripted.region_config
              (Scripted.configured ∅ Scenario.empty_id_script) w d.2 g.2
              "alias/SPIRE_SERVER_KEY/" "id-e" []
              {| km_KeyId := Some "id-e"; km_Enabled := true;
                 km_CustomerMasterKeySpec := CustomerMasterKeySpecRsa2048 |}
              "" KeyType_RSA_2048
              {| gpo_KeyId := Some "id-e"; gpo_PublicKey := Scripted.pkix |})
    as (e & n & Hrun & _ & Hempty & _).
  - reflexivity.
  - reflexivity.
  - eapply (reaches_on_page _ _ _ _ []); reflexivity.
  - eexists. split; reflexivity.
  - reflexivity.
  - reflexivity.
  - reflexivity.
  - reflexivity.
  - left. reflexivity.
  - exists n, g.2. intros fuel Hle. rewrite <- (Hempty eq_refl). apply Hrun, Hle.
Defined.

Lemma Configure_entries_origin_witness :
  reconciled
    (plugin (from_option snd Scripted.holding_old
               (Configure Scripted.decode 2 Scripted.region_request
                  (Scripted.configured {["old" := Scripted.an_entry "old" "id-0"]}
                     Scripted.two_page_script))))
    "a"
    {| KMSKeyID := "id-a"; Alias := "alias/SPIRE_SERVER_KEY/a";
       PublicKey := Some {| Id := "a"; Type_ := KeyType_RSA_2048;
                            PkixData := Scripted.pkix |} |}.
Proof.
  pose (w := Scripted.configured {["old" := Scripted.an_entry "old" "id-0"]}
               Scripted.two_page_script).
  pose (w' := from_option snd Scripted.holding_old
                (Configure Scripted.decode 2 Scripted.region_request w)).
  assert (Hrun : Configure Scripted.decode 2 Scripted.region_request w
                 = Some (Ok tt, w')) by (vm_compute; reflexivity).
  destruct (Configure_entries_origin Scripted.decode 2 Scripted.region_request
              Scripted.region_config w w' (Ok tt) eq_refl Hrun "a"
              {| KMSKeyID := "id-a"; Alias := "alias/SPIRE_SERVER_KEY/a";
                 PublicKey := Some {| Id := "a"; Type_ := KeyType_RSA_2048;
                                      PkixData := Scripted.pkix |} |})
    as [Hold|Hrec].
  - vm_compute. reflexivity.
  - vm_compute in Hold. discriminate Hold.
  - exact Hrec.
Defined.

Lemma Configure_keeps_cache_ok_witness :
  cache_ok (entries (plugin (from_option snd Scripted.holding_old
                               (Configure Scripted.decode 2 Scripted.region_request
                                  (Scripted.configured
                                     {["old" := Scripted.an_entry "old" "id-0"]}
                                     Scripted.two_page_script))))).
Proof.
  refine (Configure_keeps_cache_ok Scripted.decode 2 Scripted.region_request
            (Scripted.configured {["old" := Scripted.an_entry "old" "id-0"]}
               Scripted.two_page_script)
            _ (Ok tt) _ _).
  - vm_compute. reflexivity.
  - apply singleton_cache_ok; discriminate.
Defined.

Lemma cache_never_shrinks_witness :
  is_Some (entries (plugin (GenerateKey Scripted.k1_request
                              (Scenario.holding_k1 Scenario.no_public_key_script)).2)
           !! "k1")
  ∧ is_Some (entries (plugin (from_option snd Scripted.holding_old
                                (Configure Scripted.decode 1 Scripted.region_request
                                   Scripted.holding_old))) !! "old").
Proof.
  split.
  - refine (proj1 (cache_never_shrinks Scripted.decode
                     (Scenario.holding_k1 Scenario.no_public_key_script) "k1" _)
                  Scripted.k1_request).
    eexists. vm_compute. reflexivity.
  - refine (proj2 (cache_never_shrinks Scripted.decode Scripted.holding_old "old" _)
                  1%nat Scripted.region_request (Ok tt) _ eq_refl).
    eexists. vm_compute. reflexivity.
Defined.

Lemma spireKeyIDFromAlias_sound_witness :
  (∃ before, "alias/SPIRE_SERVER_KEY/x509-CA-A"
             = before +:+ "SPIRE_SERVER_KEY/" +:+ "x509-CA-A")
  ∧ ¬ contains "x509-CA-A" "SPIRE_SERVER_KEY/".
Proof.
  refine (spireKeyIDFromAlias_sound (Scripted.prefixed defaultKeyPrefix)
            "alias/SPIRE_SERVER_KEY/x509-CA-A" "x509-CA-A" _ _).
  - discriminate.
  - reflexivity.
Defined.

Lemma spireKeyIDFromAlias_count_witness :
  spireKeyIDFromAlias (Scripted.prefixed defaultKeyPrefix) "alias/aws/rds"
  = Err (ErrAliasWithoutPrefix "SPIRE_SERVER_KEY/")
  ∧ spireKeyIDFromAlias (Scripted.prefixed defaultKeyPrefix)
      "alias/SPIRE_SERVER_KEY/SPIRE_SERVER_KEY/k"
    = Err (ErrAliasWithoutPrefix "SPIRE_SERVER_KEY/").
Proof.
  split.
  - refine (proj1 (proj2 (spireKeyIDFromAlias_count
                            (Scripted.prefixed defaultKeyPrefix) "alias/aws/rds" _)) _);
      discriminate.
  - refine (proj1 (proj2 (spireKeyIDFromAlias_count
                            (Scripted.prefixed defaultKeyPrefix)
                            "alias/SPIRE_SERVER_KEY/SPIRE_SERVER_KEY/k" _)) _);
      discriminate.
Defined.
